(** * ZeroFrameJS: the WebSocket client of [src/index.js]

    A shallow embedding of the [ZeroFrame] class: the constructor and its
    option merge, the send path with its waiting queue and callback table,
    the four socket handlers, the reconnect timer and the command surface
    ([cmd], [cmdp], [proxy], [response]).

    The client is single threaded and event driven, so a run of the program
    is a sequence of events (calls of the public methods, socket events,
    timer and fetch completions), each handled to completion by one of the
    functions below.  Every function takes the state it works on and
    returns the new state with the list of calls it made to the outside
    (socket sends, user hooks, callbacks, timers). *)

From stdpp Require Import gmap strings list fin_maps pretty.
From Stdlib Require Import ZArith Lia.

Set Warnings "-register-all".
Local Open Scope Z_scope.

(** ** Data carried by messages *)

(** What [JSON.parse] produces, with [undefined] for a property that is
    absent.  Numbers are the integers (identifiers, ports, counters); the
    properties of an object have distinct names. *)
Inductive jsval :=
| JUndefined
| JNull
| JBool (b : bool)
| JNum (n : Z)
| JStr (s : string)
| JArr (items : list jsval)
| JObj (props : list (string * jsval)).

(** The truth value JavaScript gives [v] in [if (v)], [!v] and [v && w]. *)
Definition truthy (v : jsval) : bool :=
  match v with
  | JUndefined | JNull => false
  | JBool b => b
  | JNum n => negb (n =? 0)
  | JStr s => negb (String.eqb s "")
  | JArr _ | JObj _ => true
  end.

Fixpoint lookup_prop (name : string) (props : list (string * jsval)) : jsval :=
  match props with
  | [] => JUndefined
  | (k, v) :: rest => if String.eqb k name then v else lookup_prop name rest
  end.

(** [v.name] for a truthy [v] and a name that no built-in object has
    ([error] is the one the client reads): only an object carries it. *)
Definition get (v : jsval) (name : string) : jsval :=
  match v with
  | JObj props => lookup_prop name props
  | _ => JUndefined
  end.

(** [typeof v === 'object' && v !== null] *)
Definition is_object (v : jsval) : bool :=
  match v with
  | JArr _ | JObj _ => true
  | _ => false
  end.

Definition CMD_RESPONSE : string := "response".
Definition CMD_PING : string := "ping".
Definition CMD_PONG : string := "pong".

(** A message object, outbound or inbound, with the properties the client
    reads or writes.  An absent property reads as [None] or [JUndefined];
    an absent [processed] is falsy. *)
Record Message := mkMessage {
  id : option Z;
  cmd : string;
  params : jsval;
  to : option Z;
  result : jsval;
  processed : bool
}.

Definition set_id (i : option Z) (m : Message) : Message :=
  mkMessage i (cmd m) (params m) (to m) (result m) (processed m).

Definition set_processed (b : bool) (m : Message) : Message :=
  mkMessage (id m) (cmd m) (params m) (to m) (result m) b.

(** [!message.id]: no identifier, or the falsy identifier 0. *)
Definition lacks_id (m : Message) : bool :=
  match id m with
  | None => true
  | Some i => i =? 0
  end.

(** ** Callbacks and promises *)

(** A function the caller passes to [cmd]: it is named by a number, and
    a call of it with a result either returns or throws. *)
Record Function := mkFunction {
  fn : nat;
  raises : jsval → bool
}.

(** A function that returns whatever it is called with. *)
Definition returning (f : nat) : Function := mkFunction f (λ _, false).

(** A callback registered in [waitingCallbacks] is either a function the
    caller passed to [cmd], or the arrow function that [cmdp] builds
    around the [resolve] and [reject] of promise [p]. *)
Inductive Callback :=
| Handler (f : Function)
| Settle (p : nat).

Inductive Promise :=
| Pending
| Fulfilled (value : jsval)
| Rejected (reason : jsval).

(** [resolve] and [reject] act on a pending promise only. *)
Definition resolve (v : jsval) (p : Promise) : Promise :=
  match p with
  | Pending => Fulfilled v
  | _ => p
  end.

Definition reject (v : jsval) (p : Promise) : Promise :=
  match p with
  | Pending => Rejected v
  | _ => p
  end.

(** ** Calls to the outside *)

Inductive Effect :=
| Send (socket : option nat) (object : nat) (data : Message)
    (* this.websocket.send(JSON.stringify(message)), for the message object
       at index [object] of the store, with the properties it has then *)
| Call (key : Z) (cb : Callback) (arg : jsval)
    (* this.waitingCallbacks[key](arg) *)
| OnRequest (name : string) (message : Message)
    (* this.onRequest(cmd, message), the hook of the application *)
| OnOpenWebsocket
| OnErrorWebsocket
| OnCloseWebsocket
    (* the three life-cycle hooks *)
| SetTimeout (ms : Z)
    (* setTimeout of line 248 *)
| NewWebSocket (wsUrl : string) (cookie : option string)
    (* new WebSocket(...) of lines 131 and 133 *)
| Fetch (target : string).
    (* fetch(this.url, ...) of line 111 *)

(** ** The client object *)

Record Show := mkShow { log : bool; error : bool }.
Record Reconnect := mkReconnect { attempts : Z; delay : Z }.

Record ZeroFrame := mkZeroFrame {
  masterAddress : option string;
  masterSeed : option string;
  show : Show;
  reconnect : Reconnect;
  site : string;
  host : string;
  port : Z;
  secure : bool;
  url : string;
  websocketConnected : bool;
  waitingCallbacks : gmap Z Callback;
  waitingMessages : list nat;
  nextMessageId : Z;
  nextAttemptId : Z;
  wrapperKey : option string;
  websocket : option nat
}.

Definition set_websocketConnected (b : bool) (z : ZeroFrame) : ZeroFrame :=
  mkZeroFrame (masterAddress z) (masterSeed z) (show z) (reconnect z) (site z)
    (host z) (port z) (secure z) (url z) b (waitingCallbacks z)
    (waitingMessages z) (nextMessageId z) (nextAttemptId z) (wrapperKey z)
    (websocket z).

Definition set_waitingCallbacks (c : gmap Z Callback) (z : ZeroFrame) : ZeroFrame :=
  mkZeroFrame (masterAddress z) (masterSeed z) (show z) (reconnect z) (site z)
    (host z) (port z) (secure z) (url z) (websocketConnected z) c
    (waitingMessages z) (nextMessageId z) (nextAttemptId z) (wrapperKey z)
    (websocket z).

Definition set_waitingMessages (q : list nat) (z : ZeroFrame) : ZeroFrame :=
  mkZeroFrame (masterAddress z) (masterSeed z) (show z) (reconnect z) (site z)
    (host z) (port z) (secure z) (url z) (websocketConnected z)
    (waitingCallbacks z) q (nextMessageId z) (nextAttemptId z) (wrapperKey z)
    (websocket z).

Definition set_nextMessageId (n : Z) (z : ZeroFrame) : ZeroFrame :=
  mkZeroFrame (masterAddress z) (masterSeed z) (show z) (reconnect z) (site z)
    (host z) (port z) (secure z) (url z) (websocketConnected z)
    (waitingCallbacks z) (waitingMessages z) n (nextAttemptId z) (wrapperKey z)
    (websocket z).

Definition set_wrapperKey (k : option string) (z : ZeroFrame) : ZeroFrame :=
  mkZeroFrame (masterAddress z) (masterSeed z) (show z) (reconnect z) (site z)
    (host z) (port z) (secure z) (url z) (websocketConnected z)
    (waitingCallbacks z) (waitingMessages z) (nextMessageId z)
    (nextAttemptId z) k (websocket z).

Definition set_websocket (w : option nat) (z : ZeroFrame) : ZeroFrame :=
  mkZeroFrame (masterAddress z) (masterSeed z) (show z) (reconnect z) (site z)
    (host z) (port z) (secure z) (url z) (websocketConnected z)
    (waitingCallbacks z) (waitingMessages z) (nextMessageId z)
    (nextAttemptId z) (wrapperKey z) w.

(** The client together with the part of the JavaScript heap and event loop
    it works with: the message objects (a reference is an index into
    [objects]), the promises handed out by [cmdp], the sockets created, the
    reconnect timers set and not yet fired, and whether [_connect] is
    waiting for the wrapper page. *)
Record Runtime := mkRuntime {
  this : ZeroFrame;
  objects : list Message;
  promises : list Promise;
  sockets : nat;
  timers : nat;
  fetching : bool
}.

Definition set_this (z : ZeroFrame) (r : Runtime) : Runtime :=
  mkRuntime z (objects r) (promises r) (sockets r) (timers r) (fetching r).

Definition set_objects (o : list Message) (r : Runtime) : Runtime :=
  mkRuntime (this r) o (promises r) (sockets r) (timers r) (fetching r).

Definition set_promises (p : list Promise) (r : Runtime) : Runtime :=
  mkRuntime (this r) (objects r) p (sockets r) (timers r) (fetching r).

Definition set_sockets (n : nat) (r : Runtime) : Runtime :=
  mkRuntime (this r) (objects r) (promises r) n (timers r) (fetching r).

Definition set_timers (n : nat) (r : Runtime) : Runtime :=
  mkRuntime (this r) (objects r) (promises r) (sockets r) n (fetching r).

Definition set_fetching (b : bool) (r : Runtime) : Runtime :=
  mkRuntime (this r) (objects r) (promises r) (sockets r) (timers r) b.

(** ** The send path *)

(** [_send (message, cb = null)], lines 375-390.  [message] refers to an
    object of the store; a reference outside the store does not occur and
    is left alone. *)
Definition _send (message : nat) (cb : option Callback) (r : Runtime)
  : Runtime * list Effect :=
  match objects r !! message with
  | None => (r, [])
  | Some m =>
    let z := this r in
    (* if (!message.id) { message.id = this.nextMessageId; this.nextMessageId++ } *)
    let key := if lacks_id m then nextMessageId z else default 0 (id m) in
    let m1 := if lacks_id m then set_id (Some (nextMessageId z)) m else m in
    let z1 := if lacks_id m then set_nextMessageId (nextMessageId z + 1) z else z in
    let store := <[message := m1]> (objects r) in
    (* if (this.websocketConnected) send else this.waitingMessages.push(message) *)
    let z2 := if websocketConnected z1 then z1
              else set_waitingMessages (waitingMessages z1 ++ [message]) z1 in
    let out := if websocketConnected z1 then [Send (websocket z1) message m1]
               else [] in
    (* if (cb) { this.waitingCallbacks[message.id] = cb } *)
    let z3 := match cb with
              | Some f => set_waitingCallbacks (<[key := f]> (waitingCallbacks z2)) z2
              | None => z2
              end in
    (set_this z3 (set_objects store r), out)
  end.

(** A new object literal: it goes to the end of the store. *)
Definition alloc (m : Message) (r : Runtime) : nat * Runtime :=
  (length (objects r), set_objects (objects r ++ [m]) r).

(** A parameter with the default value [{}]: the default applies when the
    argument is missing or [undefined]. *)
Definition or_empty (v : jsval) : jsval :=
  match v with
  | JUndefined => JObj []
  | _ => v
  end.

(** [cmd (cmd, params = {}, cb = null)], lines 401-406. *)
Definition cmd_ (name : string) (args : jsval) (cb : option Callback) (r : Runtime)
  : Runtime * list Effect :=
  let '(message, r1) :=
    alloc (mkMessage None name (or_empty args) None JUndefined false) r in
  _send message cb r1.

(** [cmdp (cmd, params = {})], lines 422-432: the promise is created, its
    executor runs at once and calls [cmd] with the settling callback; the
    promise is returned. *)
Definition cmdp (name : string) (args : jsval) (r : Runtime)
  : nat * Runtime * list Effect :=
  let p := length (promises r) in
  let r1 := set_promises (promises r ++ [Pending]) r in
  let '(r2, out) := cmd_ name (or_empty args) (Some (Settle p)) r1 in
  (p, r2, out).

(** [response (to, result)], lines 442-448. *)
Definition response (target : option Z) (res : jsval) (r : Runtime)
  : Runtime * list Effect :=
  let '(message, r1) :=
    alloc (mkMessage None CMD_RESPONSE JUndefined target res false) r in
  _send message None r1.

(** The function returned by the [get] trap of [proxy], lines 60-75,
    applied to [arguments]. *)
Definition proxy (name : string) (arguments : list jsval) (r : Runtime)
  : nat * Runtime * list Effect :=
  let first := default JUndefined (arguments !! 0%nat) in
  if (length arguments =? 0)%nat then cmdp name JUndefined r
  else if (length arguments =? 1)%nat && is_object first then cmdp name first r
  else cmdp name (JArr arguments) r.

(** ** Connecting *)

(** [_getWebsocket], lines 126-142: a new socket with the four handlers
    bound to the client.  The socket is named by its creation number. *)
Definition _getWebsocket (r : Runtime) : nat * Runtime * list Effect :=
  let z := this r in
  let wsUrl := "ws" +:+ (if secure z then "s" else "") +:+ "://" +:+ host z
               +:+ ":" +:+ pretty (port z) +:+ "/Websocket?wrapper_key="
               +:+ default "undefined" (wrapperKey z) in
  let cookie := match masterAddress z with
                | None => None
                | Some a => if String.eqb a "" then None
                            else Some ("master_address=" +:+ a)
                end in
  (sockets r, set_sockets (S (sockets r)) r, [NewWebSocket wsUrl cookie]).

(** [_connect], lines 96-101, up to its first suspension: [_getWrapperKey]
    has issued the fetch of the wrapper page. *)
Definition _connect (r : Runtime) : Runtime * list Effect :=
  (set_fetching true r, [Fetch (url (this r))]).

(** The rest of [_connect], run when the wrapper page has arrived and the
    key has been cut out of it: the key is stored, the socket is created
    and stored, [init] returns the client. *)
Definition _connect_resume (key : string) (r : Runtime) : Runtime * list Effect :=
  if fetching r then
    let r1 := set_fetching false (set_this (set_wrapperKey (Some key) (this r)) r) in
    let '(ws, r2, out) := _getWebsocket r1 in
    (set_this (set_websocket (Some ws) (this r2)) r2, out)
  else (r, []).

(** ** Internal handlers *)

(** Whether the call of [cb] with [res] ends by throwing.  A function of
    the caller may; the callback of [cmdp], lines 424-430, tests the
    result and calls [resolve] or [reject], and returns. *)
Definition throws (cb : Callback) (res : jsval) : bool :=
  match cb with
  | Handler f => raises f res
  | Settle _ => false
  end.

(** The state when the call of [cb] with [res] is over, by a return or by
    a throw.  What a function of the caller does is the caller's and leaves
    the client alone; the callback of [cmdp] settles its promise. *)
Definition invoke (cb : Callback) (res : jsval) (r : Runtime) : Runtime :=
  match cb with
  | Handler _ => r
  | Settle p =>
    match promises r !! p with
    | None => r
    | Some st =>
      if truthy res && truthy (get res "error")
      then set_promises (<[p := reject (get res "error") st]> (promises r)) r
      else set_promises (<[p := resolve res st]> (promises r)) r
    end
  end.

(** [_onRequest], lines 161-175, on the parsed [message].  As in the wire
    format [to] is a number or absent; the table is keyed by identifiers,
    so a response without [to] finds nothing.  When the callback throws
    at line 167 the exception leaves the handler, and the [delete] of line
    168 is not reached. *)
Definition _onRequest (message : Message) (r : Runtime) : Runtime * list Effect :=
  if String.eqb (cmd message) CMD_RESPONSE then
    match to message with
    | None => (r, [])
    | Some k =>
      match waitingCallbacks (this r) !! k with
      | None => (r, [])
      | Some cb =>
        let r1 := invoke cb (result message) r in
        if throws cb (result message) then (r1, [Call k cb (result message)])
        else
          (set_this (set_waitingCallbacks (delete k (waitingCallbacks (this r1)))
                       (this r1)) r1,
           [Call k cb (result message)])
      end
    end
  else if String.eqb (cmd message) CMD_PING then
    response (id message) (JStr CMD_PONG) r
  else
    (r, [OnRequest (cmd message) message]).

(** The body of the [forEach] of line 194 for one entry of the queue. *)
Definition flush_one (message : nat) (r : Runtime) : Runtime * list Effect :=
  match objects r !! message with
  | None => (r, [])
  | Some m =>
    if processed m then (r, [])
    else (set_objects (<[message := set_processed true m]> (objects r)) r,
          [Send (websocket (this r)) message m])
  end.

Fixpoint flush (queue : list nat) (r : Runtime) : Runtime * list Effect :=
  match queue with
  | [] => (r, [])
  | message :: rest =>
    let '(r1, out1) := flush_one message r in
    let '(r2, out2) := flush rest r1 in
    (r2, out1 ++ out2)
  end.

(** [_onOpenWebsocket], lines 191-202. *)
Definition _onOpenWebsocket (r : Runtime) : Runtime * list Effect :=
  let r1 := set_this (set_websocketConnected true (this r)) r in
  let '(r2, out) := flush (waitingMessages (this r1)) r1 in
  (r2, out ++ [OnOpenWebsocket]).

(** [_onErrorWebsocket], lines 217-219. *)
Definition _onErrorWebsocket (r : Runtime) : Runtime * list Effect :=
  (r, [OnErrorWebsocket]).

(** [_onCloseWebsocket], lines 235-251. *)
Definition _onCloseWebsocket (r : Runtime) : Runtime * list Effect :=
  let r1 := set_this (set_websocketConnected false (this r)) r in
  let z := this r1 in
  if attempts (reconnect z) =? 0 then
    (r1, [OnCloseWebsocket])
  else if negb (attempts (reconnect z) =? -1)
          && (nextAttemptId z >? attempts (reconnect z)) then
    (r1, [OnCloseWebsocket])
  else
    (set_timers (S (timers r1)) r1, [OnCloseWebsocket; SetTimeout (delay (reconnect z))]).

(** The function given to [setTimeout], lines 248-250, when its timer
    fires.  Without a timer set there is nothing to fire. *)
Definition reconnect_timer (r : Runtime) : Runtime * list Effect :=
  match timers r with
  | O => (r, [])
  | S n =>
    let '(ws, r1, out) := _getWebsocket (set_timers n r) in
    (set_this (set_websocket (Some ws) (this r1)) r1, out)
  end.

(** ** Construction *)

Record Multiuser := mkMultiuser {
  multiuser_masterAddress : option string;
  multiuser_masterSeed : option string
}.

Record Instance := mkInstance {
  instance_host : string;
  instance_port : Z;
  instance_secure : bool
}.

(** [ZeroFrame#constructorOptions], lines 451-473, with the documented
    types; [null] is [None]. *)
Record Options := mkOptions {
  multiuser : Multiuser;
  instance : Instance;
  options_show : Show;
  options_reconnect : Reconnect
}.

(** Lines 28-77 of the constructor, for a site address that is a string
    and merged options of the documented types.  [this.show] and
    [this.reconnect] are the objects of the merged options themselves; the
    record keeps what they hold, which stays the same as long as no other
    client is constructed with overrides of them (no event of a run does
    that).  A client in a program that constructs others is [Shared],
    further down, where the two are read from the store of the option
    objects at every event. *)
Definition new (address : string) (options : Options) : Runtime * list Effect :=
  let i := instance options in
  let z := mkZeroFrame
    (multiuser_masterAddress (multiuser options))
    (multiuser_masterSeed (multiuser options))
    (options_show options)
    (options_reconnect options)
    address
    (instance_host i)
    (instance_port i)
    (instance_secure i)
    ("http" +:+ (if instance_secure i then "s" else "") +:+ "://"
     +:+ instance_host i +:+ ":" +:+ pretty (instance_port i) +:+ "/" +:+ address)
    false ∅ [] 1 1 None None in
  _connect (mkRuntime z [] [] O O false).

(** ** Runs *)

(** What can happen to a client: a call of one of its public methods, a
    frame or a life-cycle event of its socket, a reconnect timer firing,
    the arrival of the wrapper page. *)
Inductive Event :=
| CallCmd (name : string) (args : jsval) (cb : option Function)
| CallCmdp (name : string) (args : jsval)
| CallProxy (name : string) (arguments : list jsval)
| CallResponse (target : option Z) (res : jsval)
| Incoming (message : Message)
| Opened
| Failed
| Closed
| TimerFired
| PageFetched (key : string).

Definition handle (e : Event) (r : Runtime) : Runtime * list Effect :=
  match e with
  | CallCmd name args cb => cmd_ name args (Handler <$> cb) r
  | CallCmdp name args => let '(_, r1, out) := cmdp name args r in (r1, out)
  | CallProxy name arguments => let '(_, r1, out) := proxy name arguments r in (r1, out)
  | CallResponse target res => response target res r
  | Incoming message => _onRequest message r
  | Opened => _onOpenWebsocket r
  | Failed => _onErrorWebsocket r
  | Closed => _onCloseWebsocket r
  | TimerFired => reconnect_timer r
  | PageFetched key => _connect_resume key r
  end.

Fixpoint run (es : list Event) (r : Runtime) : Runtime * list Effect :=
  match es with
  | [] => (r, [])
  | e :: rest =>
    let '(r1, out1) := handle e r in
    let '(r2, out2) := run rest r1 in
    (r2, out1 ++ out2)
  end.

(** The life of a client: constructed, then a sequence of events. *)
Definition session (address : string) (options : Options) (es : list Event)
  : Runtime * list Effect :=
  let '(r0, out0) := new address options in
  let '(r1, out1) := run es r0 in
  (r1, out0 ++ out1).

(** ** The option objects and their merge *)

(** The option objects are mutable and shared, so they live in a store of
    their own: an object is the list of its properties, a reference is an
    index into the store, any other value is kept as data. *)
Inductive value :=
| Data (v : jsval)
| Ref (l : nat).

Definition object := list (string * value).

Fixpoint own (name : string) (o : object) : value :=
  match o with
  | [] => Data JUndefined
  | (k, v) :: rest => if String.eqb k name then v else own name rest
  end.

Fixpoint put (name : string) (v : value) (o : object) : object :=
  match o with
  | [] => [(name, v)]
  | (k, w) :: rest =>
    if String.eqb k name then (k, v) :: rest else (k, w) :: put name v rest
  end.

(** [ref[key]] and [ref[key] = v] on the object at [ref]. *)
Definition prop (h : list object) (ref : nat) (key : string) : value :=
  match h !! ref with
  | Some o => own key o
  | None => Data JUndefined
  end.

Definition set_prop (h : list object) (ref : nat) (key : string) (v : value)
  : list object :=
  match h !! ref with
  | Some o => <[ref := put key v o]> h
  | None => h
  end.

(** The package recursive-object-assign is imported, not part of the
    repository.  It is taken with the contract of [Object.assign] made
    recursive: every property of the source is written into the target
    object itself, going down where the source holds a plain object (a
    target property that is not an object is first set to a new [{}]), and
    the target is returned.  The properties about merged options take
    sources that hold strings, numbers, booleans and plain objects. *)
Fixpoint assign (h : list object) (ref : nat) (key : string) (v : jsval)
  : list object :=
  match v with
  | JObj props =>
    let '(h1, sub) :=
      match prop h ref key with
      | Ref l => (h, l)
      | Data _ => (set_prop (h ++ [[]]) ref key (Ref (length h)), length h)
      end in
    (fix mutate (h : list object) (props : list (string * jsval)) :=
       match props with
       | [] => h
       | (k, x) :: rest => mutate (assign h sub k x) rest
       end) h1 props
  | _ => set_prop h ref key (Data v)
  end.

Fixpoint mutate (h : list object) (destination : nat)
    (source : list (string * jsval)) : list object :=
  match source with
  | [] => h
  | (k, x) :: rest => mutate (assign h destination k x) destination rest
  end.

Definition recursiveAssign (h : list object) (target : nat)
    (source : list (string * jsval)) : list object * nat :=
  (mutate h target source, target).

(** [ZeroFrame.constructorOptions], lines 474-492: the reference the class
    property holds, and the store when the module has been loaded. *)
Definition constructorOptions : nat := 0%nat.

Definition loaded : list object :=
  [ [("multiuser", Ref 1); ("instance", Ref 2); ("show", Ref 3); ("reconnect", Ref 4)];
    [("masterAddress", Data JNull); ("masterSeed", Data JNull)];
    [("host", Data (JStr "127.0.0.1")); ("port", Data (JNum 43110));
     ("secure", Data (JBool false))];
    [("log", Data (JBool false)); ("error", Data (JBool false))];
    [("attempts", Data (JNum (-1))); ("delay", Data (JNum 5000))] ].

(** The documented defaults. *)
Definition defaults : Options :=
  mkOptions (mkMultiuser None None) (mkInstance "127.0.0.1" 43110 false)
            (mkShow false false) (mkReconnect (-1) 5000).

(** Reading options of the documented types out of the store. *)
Definition as_object (v : value) : option nat :=
  match v with Ref l => Some l | Data _ => None end.

Definition as_string (v : value) : option string :=
  match v with Data (JStr s) => Some s | _ => None end.

Definition as_nullable_string (v : value) : option (option string) :=
  match v with
  | Data JNull => Some None
  | Data (JStr s) => Some (Some s)
  | _ => None
  end.

Definition as_number (v : value) : option Z :=
  match v with Data (JNum n) => Some n | _ => None end.

Definition as_boolean (v : value) : option bool :=
  match v with Data (JBool b) => Some b | _ => None end.

Definition read_options (h : list object) (options : nat) : option Options :=
  m ← as_object (prop h options "multiuser");
  i ← as_object (prop h options "instance");
  s ← as_object (prop h options "show");
  c ← as_object (prop h options "reconnect");
  address ← as_nullable_string (prop h m "masterAddress");
  seed ← as_nullable_string (prop h m "masterSeed");
  host ← as_string (prop h i "host");
  port ← as_number (prop h i "port");
  secure ← as_boolean (prop h i "secure");
  log ← as_boolean (prop h s "log");
  error ← as_boolean (prop h s "error");
  attempts ← as_number (prop h c "attempts");
  delay ← as_number (prop h c "delay");
  Some (mkOptions (mkMultiuser address seed) (mkInstance host port secure)
                  (mkShow log error) (mkReconnect attempts delay)).

(** How a call of the constructor ends. *)
Inductive Completion :=
| Thrown (message : string)
| Constructed (r : Runtime) (out : list Effect)
| Untyped.

(** [constructor (site, options = {})], lines 21-78, on the store of the
    option objects.  The merge comes first, then the test of [site].  A
    truthy site that is not a string, or merged options that are not of
    the documented types, are outside the model ([Untyped]). *)
Definition constructor (address : jsval) (options : list (string * jsval))
    (h : list object) : list object * Completion :=
  let '(h1, merged) := recursiveAssign h constructorOptions options in
  if negb (truthy address) then (h1, Thrown "Site address is not specified")
  else
    match address, read_options h1 merged with
    | JStr s, Some o => let '(r, out) := new s o in (h1, Constructed r out)
    | _, _ => (h1, Untyped)
    end.

(** An option that is a string or [null]. *)
Definition nullable (s : option string) : jsval :=
  match s with
  | None => JNull
  | Some x => JStr x
  end.

(** * The vocabulary of the properties *)

(** ** What the trace of a run shows *)

Definition transmission (e : Effect) : option (nat * Message) :=
  match e with
  | Send _ l m => Some (l, m)
  | _ => None
  end.

(** The message objects handed to the socket, in order, each with the
    properties it had then. *)
Definition transmissions (out : list Effect) : list (nat * Message) :=
  omap transmission out.

Definition sent (out : list Effect) : list nat := fst <$> transmissions out.

Definition invocation (e : Effect) : option Z :=
  match e with
  | Call k _ _ => Some k
  | _ => None
  end.

(** The identifiers whose callback was called, one entry per call. *)
Definition called (out : list Effect) : list Z := omap invocation out.

(** A call of a callback that ended by throwing. *)
Definition raised (e : Effect) : bool :=
  match e with
  | Call _ cb arg => throws cb arg
  | _ => false
  end.

Definition completion (e : Effect) : option Z :=
  if raised e then None else invocation e.

(** The identifiers whose callback was called and returned, one entry per
    such call. *)
Definition returned (out : list Effect) : list Z := omap completion out.

Definition is_timeout (e : Effect) : bool :=
  match e with
  | SetTimeout _ => true
  | _ => false
  end.

Definition is_connection (e : Effect) : bool :=
  match e with
  | NewWebSocket _ _ => true
  | _ => false
  end.

(** The reconnections scheduled, and the sockets created. *)
Definition scheduled (out : list Effect) : nat := length (List.filter is_timeout out).
Definition connections (out : list Effect) : nat := length (List.filter is_connection out).

Definition is_close (e : Event) : bool :=
  match e with
  | Closed => true
  | _ => false
  end.

(** The number of times the socket closed in a run. *)
Definition closures (es : list Event) : nat := length (List.filter is_close es).

(** ** The queue and the store *)

(** The queue entries not yet handed to the socket. *)
Definition unprocessed (r : Runtime) (l : nat) : bool :=
  match objects r !! l with
  | Some m => negb (processed m)
  | None => false
  end.

Definition pending (r : Runtime) : list nat :=
  List.filter (unprocessed r) (waitingMessages (this r)).

#[local] Instance Message_inhabited : Inhabited Message :=
  populate (mkMessage None "" JUndefined None JUndefined false).

(** The store after the loop of [_onOpenWebsocket] over the queue [q]. *)
Definition mark (q : list nat) (l : nat) (m : Message) : Message :=
  if decide (l ∈ q) then set_processed true m else m.

(** Objects of the store stay where they are and change in their
    [processed] mark only. *)
Definition evolves (o o' : list Message) : Prop :=
  ∀ l m, o !! l = Some m → ∃ b, o' !! l = Some (set_processed b m).

(** ** Sending a new object *)

Definition register (cb : option Callback) (key : Z) (z : ZeroFrame) : ZeroFrame :=
  match cb with
  | Some f => set_waitingCallbacks (<[key := f]> (waitingCallbacks z)) z
  | None => z
  end.

(** What [_send] comes to for an object literal without identifier: the
    literal gets the next identifier and the end of the store. *)
Definition post (m : Message) (cb : option Callback) (r : Runtime)
  : Runtime * list Effect :=
  let k := nextMessageId (this r) in
  let l := length (objects r) in
  let z1 := set_nextMessageId (k + 1) (this r) in
  let z2 := if websocketConnected (this r) then z1
            else set_waitingMessages (waitingMessages (this r) ++ [l]) z1 in
  (set_this (register cb k z2) (set_objects (objects r ++ [set_id (Some k) m]) r),
   if websocketConnected (this r) then [Send (websocket (this r)) l (set_id (Some k) m)]
   else []).

(** A command issued through the promise surface with the parameters
    [given]: a new pending promise, and the message
    [{cmd: name, params: given}] posted with the callback that settles
    it. *)
Definition issue (name : string) (given : jsval) (r : Runtime)
  : nat * Runtime * list Effect :=
  let p := length (promises r) in
  let '(r', out) := post (mkMessage None name given None JUndefined false)
                         (Some (Settle p))
                         (set_promises (promises r ++ [Pending]) r) in
  (p, r', out).

(** The parameters the function of [proxy] passes on. *)
Definition proxy_params (arguments : list jsval) : jsval :=
  let first := default JUndefined (arguments !! 0%nat) in
  if (length arguments =? 0)%nat then JUndefined
  else if (length arguments =? 1)%nat && is_object first then first
  else JArr arguments.

(** The object literal an event makes the client send, if any: the calls
    of the command surface and an inbound ping. *)
Definition outgoing (e : Event) : option Message :=
  match e with
  | CallCmd name args _ | CallCmdp name args =>
    Some (mkMessage None name (or_empty args) None JUndefined false)
  | CallProxy name arguments =>
    Some (mkMessage None name (or_empty (proxy_params arguments)) None JUndefined false)
  | CallResponse target res =>
    Some (mkMessage None CMD_RESPONSE JUndefined target res false)
  | Incoming message =>
    if String.eqb (cmd message) CMD_PING
    then Some (mkMessage None CMD_RESPONSE JUndefined (id message) (JStr CMD_PONG) false)
    else None
  | _ => None
  end.

(** The calls of the command surface. *)
Definition is_call (e : Event) : bool :=
  match e with
  | CallCmd _ _ _ | CallCmdp _ _ | CallProxy _ _ | CallResponse _ _ => true
  | _ => false
  end.

(** ** Invariants *)

(** What holds of the state of a client after any run: identifiers follow
    the order of the message objects, the queue holds distinct objects of
    the store, callbacks wait under identifiers already given out, and a
    promise whose callback waits is pending and waits under one identifier
    only. *)
Record wf (r : Runtime) : Prop := mkWf {
  wf_next : nextMessageId (this r) = Z.of_nat (length (objects r)) + 1;
  wf_ids : ∀ i m, objects r !! i = Some m → id m = Some (Z.of_nat i + 1);
  wf_queue_nodup : NoDup (waitingMessages (this r));
  wf_queue_bound : ∀ l, l ∈ waitingMessages (this r) → (l < length (objects r))%nat;
  wf_keys : ∀ k cb, waitingCallbacks (this r) !! k = Some cb →
                    1 ≤ k < nextMessageId (this r);
  wf_settle : ∀ k p, waitingCallbacks (this r) !! k = Some (Settle p) →
                     promises r !! p = Some Pending
                     ∧ ∀ k', waitingCallbacks (this r) !! k' = Some (Settle p) → k' = k
}.

(** What holds between the state and the trace so far: no object was
    handed to the socket twice, an object handed to the socket is marked
    if it is in the queue, no identifier had two calls of its callback
    that returned, and a callback that was called and returned waits no
    longer. *)
Record traced (r : Runtime) (past : list Effect) : Prop := mkTraced {
  traced_sent_nodup : NoDup (sent past);
  traced_sent : ∀ l, l ∈ sent past →
                     (l < length (objects r))%nat
                     ∧ (l ∈ waitingMessages (this r) → unprocessed r l = false);
  traced_called_nodup : NoDup (returned past);
  traced_called : ∀ k, k ∈ returned past →
                       waitingCallbacks (this r) !! k = None
                       ∧ k < nextMessageId (this r)
}.

(** The part of the state the two invariants speak of. *)
Definition core (r : Runtime) :=
  (nextMessageId (this r), objects r, waitingMessages (this r),
   waitingCallbacks (this r), promises r).

(** With [attempts = 0] nothing is ever scheduled, no timer is pending and
    the socket of [_connect] is the only one. *)
Record disabled (r : Runtime) (past : list Effect) : Prop := mkDisabled {
  disabled_policy : attempts (reconnect (this r)) = 0;
  disabled_timers : timers r = 0%nat;
  disabled_scheduled : scheduled past = 0%nat;
  disabled_connections :
    (connections past + (if fetching r then 1 else 0) ≤ 1)%nat
}.

(** With a positive limit every close schedules a reconnection: the
    attempt counter is 1 when it is compared with the limit, since nothing
    advances it.  A reconnection scheduled is pending or has created its
    socket. *)
Record unlimited (es : list Event) (r : Runtime) (past : list Effect) : Prop :=
  mkUnlimited {
  unlimited_policy : 0 < attempts (reconnect (this r));
  unlimited_counter : nextAttemptId (this r) = 1;
  unlimited_scheduled : scheduled past = closures es;
  unlimited_connections :
    (timers r + connections past + (if fetching r then 1 else 0)
     = scheduled past + 1)%nat
}.

(** ** Promises *)

(** [e] is a response frame for the identifier [k]. *)
Definition answers (k : Z) (e : Event) : bool :=
  match e with
  | Incoming message =>
    String.eqb (cmd message) CMD_RESPONSE && bool_decide (to message = Some k)
  | _ => false
  end.

(** A promise whose callback waits no longer. *)
Definition retired (p : nat) (r : Runtime) : Prop :=
  (p < length (promises r))%nat
  ∧ ∀ k, waitingCallbacks (this r) !! k ≠ Some (Settle p).

(** What lines 424-430 do to a pending promise. *)
Definition settled (res : jsval) : Promise :=
  if truthy res && truthy (get res "error") then Rejected (get res "error")
  else Fulfilled res.

(** The reading of the promise contract by which a result is an error as
    soon as it has an [error] property, whatever the property holds. *)
Definition carries_error (res : jsval) : bool :=
  match res with
  | JObj props => existsb (λ kv, String.eqb kv.1 "error") props
  | _ => false
  end.

Definition settled_if_carried (res : jsval) : Promise :=
  if truthy res && carries_error res then Rejected (get res "error")
  else Fulfilled res.

(** * More of the client *)

(** ** The wrapper key *)

(** The characters of the regular expression of line 114.  A page is a
    string of characters below 256, so the line terminators, which [.]
    does not match, are the line feed and the carriage return. *)
Definition quote : Ascii.ascii := Eval cbv in Ascii.ascii_of_nat 34.
Definition line_feed : Ascii.ascii := Eval cbv in Ascii.ascii_of_nat 10.
Definition carriage_return : Ascii.ascii := Eval cbv in Ascii.ascii_of_nat 13.

Definition line_terminator (c : Ascii.ascii) : bool :=
  Ascii.eqb c line_feed || Ascii.eqb c carriage_return.

(** The text [wrapper_key = ] with its opening quote. *)
Definition marker : string := "wrapper_key = " +:+ String quote "".

(** [(.*?)] followed by the closing quote: the shortest run of characters
    up to the next quote, none of them a line terminator. *)
Fixpoint capture (s : string) : option string :=
  match s with
  | EmptyString => None
  | String c rest =>
    if Ascii.eqb c quote then Some ""
    else if line_terminator c then None
    else String c <$> capture rest
  end.

(** [s] without the prefix [p], if it has it. *)
Fixpoint strip (p s : string) : option string :=
  match p, s with
  | EmptyString, _ => Some s
  | String a p', String b s' => if Ascii.eqb a b then strip p' s' else None
  | String _ _, EmptyString => None
  end.

(** The expression matched at the start of [s]. *)
Definition match_here (s : string) : option string :=
  match strip marker s with
  | Some rest => capture rest
  | None => None
  end.

(** [wrapperBody.match(/wrapper_key = "(.*?)"/)]: the match at the first
    position that has one; the result is its group 1. *)
Fixpoint match_ (s : string) : option string :=
  match match_here s with
  | Some key => Some key
  | None =>
    match s with
    | EmptyString => None
    | String _ rest => match_ rest
    end
  end.

(** [_getWrapperKey], lines 110-117, on the text of the page: the key, or
    [None] for the [TypeError] of [null[1]] when nothing matches. *)
Definition _getWrapperKey (wrapperBody : string) : option string :=
  match_ wrapperBody.

(** The rest of [_connect] when the page has arrived: with a key it goes
    on as [_connect_resume] does; without one the promise of [_connect] is
    rejected and neither key nor socket is set. *)
Definition _connect_page (wrapperBody : string) (r : Runtime)
  : Runtime * list Effect :=
  if fetching r then
    match _getWrapperKey wrapperBody with
    | Some key => _connect_resume key r
    | None => (set_fetching false r, [])
    end
  else (r, []).

(** ** Logging and the hooks as the class defines them *)

Inductive Arg :=
| Text (s : string)
| Object (m : Message).

Inductive Printed :=
| ConsoleLog (args : list Arg)
| ConsoleError (args : list Arg).

(** [log (...args)], lines 318-322, and [error (...args)], lines 331-335. *)
Definition log_ (z : ZeroFrame) (args : list Arg) : list Printed :=
  if log (show z) then [ConsoleLog ([Text "[ZeroFrame]"] ++ args)] else [].

Definition error_ (z : ZeroFrame) (args : list Arg) : list Printed :=
  if error (show z) then [ConsoleError ([Text "[ZeroFrame]"] ++ args)] else [].

(** The four hooks, lines 267-307. *)
Definition onRequest (z : ZeroFrame) (name : string) (message : Message)
  : list Printed :=
  log_ z [Text "Unknown request"; Object message].

Definition onOpenWebsocket (z : ZeroFrame) : list Printed :=
  log_ z [Text "Websocket open"].

Definition onErrorWebsocket (z : ZeroFrame) : list Printed :=
  error_ z [Text "Websocket error"].

Definition onCloseWebsocket (z : ZeroFrame) : list Printed :=
  log_ z [Text "Websocket close"].

(** What a call to the outside prints when the hooks are the ones of the
    class and the callbacks print nothing. *)
Definition printed (z : ZeroFrame) (e : Effect) : list Printed :=
  match e with
  | OnRequest name message => onRequest z name message
  | OnOpenWebsocket => onOpenWebsocket z
  | OnErrorWebsocket => onErrorWebsocket z
  | OnCloseWebsocket => onCloseWebsocket z
  | _ => []
  end.

(** A run that keeps the console instead of the trace: each hook prints
    with the client as it is when the handler has run ([show] is not
    written by any handler). *)
Fixpoint console (es : list Event) (r : Runtime) : list Printed :=
  match es with
  | [] => []
  | e :: rest =>
    let '(r1, out) := handle e r in
    (out ≫= printed (this r1)) ++ console rest r1
  end.

Definition is_log (p : Printed) : bool :=
  match p with
  | ConsoleLog _ => true
  | ConsoleError _ => false
  end.

(** ** More vocabulary *)

Definition timeout (e : Effect) : option Z :=
  match e with
  | SetTimeout ms => Some ms
  | _ => None
  end.

(** The delays of the reconnections scheduled, in order. *)
Definition timeouts (out : list Effect) : list Z := omap timeout out.

Definition is_fetch (e : Effect) : bool :=
  match e with
  | Fetch _ => true
  | _ => false
  end.

Definition is_page (e : Event) : bool :=
  match e with
  | PageFetched _ => true
  | _ => false
  end.

Definition is_failure (e : Event) : bool :=
  match e with
  | Failed => true
  | _ => false
  end.

(** The events the hook [onRequest], [onOpenWebsocket] or
    [onCloseWebsocket] is called for: an open, a close, a frame that is
    neither a response nor a ping. *)
Definition is_logged (e : Event) : bool :=
  match e with
  | Opened | Closed => true
  | Incoming message =>
    negb (String.eqb (cmd message) CMD_RESPONSE)
    && negb (String.eqb (cmd message) CMD_PING)
  | _ => false
  end.

(** The calls that create a promise. *)
Definition is_promise_call (e : Event) : bool :=
  match e with
  | CallCmdp _ _ | CallProxy _ _ => true
  | _ => false
  end.

(** The events of the connection: the socket opens, fails or closes, a
    reconnect timer fires, the wrapper page arrives. *)
Definition is_link (e : Event) : bool :=
  match e with
  | Opened | Failed | Closed | TimerFired | PageFetched _ => true
  | _ => false
  end.

(** What the constructor copies out of the options and never writes
    again. *)
Definition settings (z : ZeroFrame) :=
  (masterAddress z, masterSeed z, show z, reconnect z, site z, host z,
   port z, secure z, url z, nextAttemptId z).

(** Scheme suffix, host and port, as lines 39 and 127 both spell them. *)
Definition origin (o : Options) : string :=
  (if instance_secure (instance o) then "s" else "") +:+ "://"
  +:+ instance_host (instance o) +:+ ":" +:+ pretty (instance_port (instance o)).

(** A character that can stand in a key: no quote, no line terminator. *)
Definition plain (c : Ascii.ascii) : bool :=
  negb (Ascii.eqb c quote) && negb (line_terminator c).

Fixpoint all_plain (s : string) : bool :=
  match s with
  | EmptyString => true
  | String c rest => plain c && all_plain rest
  end.

(** Every message object is accounted for: handed to the socket, or in the
    queue and not yet processed. *)
Definition accounted (r : Runtime) (past : list Effect) : Prop :=
  ∀ l, (l < length (objects r))%nat → l ∈ sent past ∨ l ∈ pending r.

(** What went to the socket is an object of the store as it was before it
    was marked. *)
Definition wired (r : Runtime) (past : list Effect) : Prop :=
  ∀ l m, (l, m) ∈ transmissions past →
         processed m = false ∧ ∃ b, objects r !! l = Some (set_processed b m).

(** A pending promise has its callback waiting. *)
Definition kept (r : Runtime) : Prop :=
  ∀ p, promises r !! p = Some Pending →
       ∃ k, waitingCallbacks (this r) !! k = Some (Settle p).

(** The test of lines 240-246 under which a close schedules nothing. *)
Definition gives_up (z : ZeroFrame) : bool :=
  (attempts (reconnect z) =? 0)
  || (negb (attempts (reconnect z) =? -1)
      && (nextAttemptId z >? attempts (reconnect z))).

(** The key of a page event. *)
Definition page_key (e : Event) : option string :=
  match e with
  | PageFetched key => Some key
  | _ => None
  end.

(** The cookie of line 133, when a master address is set. *)
Definition cookie (o : Options) : option string :=
  match multiuser_masterAddress (multiuser o) with
  | None => None
  | Some a => if String.eqb a "" then None else Some ("master_address=" +:+ a)
  end.

(** The two arguments [_getWebsocket] gives to [new WebSocket]. *)
Definition socket_url (z : ZeroFrame) : string :=
  "ws" +:+ (if secure z then "s" else "") +:+ "://" +:+ host z
  +:+ ":" +:+ pretty (port z) +:+ "/Websocket?wrapper_key="
  +:+ default "undefined" (wrapperKey z).

Definition socket_cookie (z : ZeroFrame) : option string :=
  match masterAddress z with
  | None => None
  | Some a => if String.eqb a "" then None else Some ("master_address=" +:+ a)
  end.

(** The page has the marker after [pre], followed by the plain text [key]
    and a closing quote. *)
Definition found (body pre key : string) : Prop :=
  ∃ post, body = pre +:+ marker +:+ key +:+ String quote post
          ∧ all_plain key = true.

(** ** Options given in part *)

(** Overrides of the documented types: for each option, a value or
    nothing; a master address or seed that is given is a string. *)
Record Overrides := mkOverrides {
  over_masterAddress : option string;
  over_masterSeed : option string;
  over_host : option string;
  over_port : option Z;
  over_secure : option bool;
  over_log : option bool;
  over_error : option bool;
  over_attempts : option Z;
  over_delay : option Z
}.

Definition given {A} (name : string) (f : A → jsval) (v : option A)
  : list (string * jsval) :=
  match v with
  | Some x => [(name, f x)]
  | None => []
  end.

Definition group (name : string) (props : list (string * jsval))
  : list (string * jsval) :=
  match props with
  | [] => []
  | _ => [(name, JObj props)]
  end.

(** The object literal with the options given and no others; a group
    without any option given is left out. *)
Definition partial (v : Overrides) : list (string * jsval) :=
  group "multiuser" (given "masterAddress" JStr (over_masterAddress v)
                     ++ given "masterSeed" JStr (over_masterSeed v))
  ++ group "instance" (given "host" JStr (over_host v)
                       ++ given "port" JNum (over_port v)
                       ++ given "secure" JBool (over_secure v))
  ++ group "show" (given "log" JBool (over_log v)
                   ++ given "error" JBool (over_error v))
  ++ group "reconnect" (given "attempts" JNum (over_attempts v)
                        ++ given "delay" JNum (over_delay v)).

(** The options with the ones given replaced. *)
Definition override (v : Overrides) (o : Options) : Options :=
  mkOptions
    (mkMultiuser
       (default (multiuser_masterAddress (multiuser o)) (Some <$> over_masterAddress v))
       (default (multiuser_masterSeed (multiuser o)) (Some <$> over_masterSeed v)))
    (mkInstance (default (instance_host (instance o)) (over_host v))
                (default (instance_port (instance o)) (over_port v))
                (default (instance_secure (instance o)) (over_secure v)))
    (mkShow (default (log (options_show o)) (over_log v))
            (default (error (options_show o)) (over_error v)))
    (mkReconnect (default (attempts (options_reconnect o)) (over_attempts v))
                 (default (delay (options_reconnect o)) (over_delay v))).

(** The store in which the options object of the class holds [o]: the
    objects of lines 474-492 with the values of [o]. *)
Definition store_of (o : Options) : list object :=
  [ [("multiuser", Ref 1); ("instance", Ref 2); ("show", Ref 3); ("reconnect", Ref 4)];
    [("masterAddress", Data (nullable (multiuser_masterAddress (multiuser o))));
     ("masterSeed", Data (nullable (multiuser_masterSeed (multiuser o))))];
    [("host", Data (JStr (instance_host (instance o))));
     ("port", Data (JNum (instance_port (instance o))));
     ("secure", Data (JBool (instance_secure (instance o))))];
    [("log", Data (JBool (log (options_show o))));
     ("error", Data (JBool (error (options_show o))))];
    [("attempts", Data (JNum (attempts (options_reconnect o))));
     ("delay", Data (JNum (delay (options_reconnect o))))] ].

(** What a client constructed for [address] with the merged options [o]
    shows of them: the fields of lines 28-39, and the wrapper page it
    asks for. *)
Definition configured (address : string) (o : Options) (r : Runtime)
    (out : list Effect) : Prop :=
  masterAddress (this r) = multiuser_masterAddress (multiuser o)
  ∧ masterSeed (this r) = multiuser_masterSeed (multiuser o)
  ∧ show (this r) = options_show o
  ∧ reconnect (this r) = options_reconnect o
  ∧ site (this r) = address
  ∧ host (this r) = instance_host (instance o)
  ∧ port (this r) = instance_port (instance o)
  ∧ secure (this r) = instance_secure (instance o)
  ∧ out = [Fetch ("http" +:+ (if instance_secure (instance o) then "s" else "")
                  +:+ "://" +:+ instance_host (instance o) +:+ ":"
                  +:+ pretty (instance_port (instance o)) +:+ "/" +:+ address)].

(** ** A client among others *)









(** * Properties *)

(** ** The merge on the options of the class *)

Example read_loaded : read_options loaded constructorOptions = Some defaults.
Proof. reflexivity. Qed.

Example merge_port :
  read_options (mutate loaded constructorOptions [("instance", JObj [("port", JNum 8080)])]) 0
  = Some (mkOptions (mkMultiuser None None) (mkInstance "127.0.0.1" 8080 false)
            (mkShow false false) (mkReconnect (-1) 5000)).
Proof. reflexivity. Qed.

(** ** The send path on a new object *)

Lemma send_new m cb r :
  id m = None →
  _send (length (objects r)) cb (snd (alloc m r)) = post m cb r.
Proof.
  intros Hid. unfold _send, alloc, post, lacks_id. simpl.
  rewrite lookup_app_r by lia. rewrite Nat.sub_diag. simpl. rewrite Hid. simpl.
  rewrite insert_app_r_alt by lia. rewrite Nat.sub_diag. simpl.
  destruct (websocketConnected (this r)); destruct cb; reflexivity.
Qed.

Lemma cmd_post name args cb r :
  cmd_ name args cb r
  = post (mkMessage None name (or_empty args) None JUndefined false) cb r.
Proof. unfold cmd_. simpl. apply (send_new _ cb r). reflexivity. Qed.

Lemma response_post target res r :
  response target res r
  = post (mkMessage None CMD_RESPONSE JUndefined target res false) None r.
Proof. unfold response. simpl. apply (send_new _ None r). reflexivity. Qed.

Lemma or_empty_idem v : or_empty (or_empty v) = or_empty v.
Proof. destruct v; reflexivity. Qed.

Lemma cmdp_post name args r :
  cmdp name args r
  = (length (promises r),
     fst (post (mkMessage None name (or_empty args) None JUndefined false)
               (Some (Settle (length (promises r))))
               (set_promises (promises r ++ [Pending]) r)),
     snd (post (mkMessage None name (or_empty args) None JUndefined false)
               (Some (Settle (length (promises r))))
               (set_promises (promises r ++ [Pending]) r))).
Proof.
  unfold cmdp. rewrite cmd_post, or_empty_idem.
  destruct (post _ _ _); reflexivity.
Qed.

(** ** The invariant of the client state *)

Lemma sent_app a b : sent (a ++ b) = sent a ++ sent b.
Proof. unfold sent, transmissions. by rewrite omap_app, fmap_app. Qed.

Lemma called_app a b : called (a ++ b) = called a ++ called b.
Proof. unfold called. by rewrite omap_app. Qed.

Lemma returned_app a b : returned (a ++ b) = returned a ++ returned b.
Proof. unfold returned. by rewrite omap_app. Qed.

Lemma returned_called out : called out = [] → returned out = [].
Proof.
  unfold called, returned.
  induction out as [| e out IH]; [done |]. cbn [omap list_omap].
  unfold completion at 1.
  destruct (invocation e); [done |]. intros H.
  destruct (raised e); by apply IH.
Qed.

Lemma scheduled_app a b : scheduled (a ++ b) = (scheduled a + scheduled b)%nat.
Proof. unfold scheduled. by rewrite List.filter_app, length_app. Qed.

Lemma connections_app a b : connections (a ++ b) = (connections a + connections b)%nat.
Proof. unfold connections. by rewrite List.filter_app, length_app. Qed.

Lemma wf_core r r' : core r' = core r → wf r → wf r'.
Proof.
  unfold core. intros [=Hn Ho Hq Hc Hp] [].
  split; rewrite ?Hn, ?Ho, ?Hq, ?Hc, ?Hp; assumption.
Qed.

Lemma traced_still r r' past out :
  core r' = core r → sent out = [] → returned out = [] →
  traced r past → traced r' (past ++ out).
Proof.
  unfold core. intros [=Hn Ho Hq Hc Hp] Hs Hk [].
  split; rewrite ?sent_app, ?returned_app, ?Hs, ?Hk, ?app_nil_r; try assumption.
  - intros l Hl. unfold unprocessed. rewrite Ho, Hq. by apply traced_sent0.
  - intros k Hin. rewrite Hn, Hc. by apply traced_called0.
Qed.

Lemma traced_core r r' past out :
  core r' = core r → sent out = [] → called out = [] →
  traced r past → traced r' (past ++ out).
Proof. intros Hc Hs Hk%returned_called. by apply traced_still. Qed.

Lemma wf_new address options : wf (fst (new address options)).
Proof.
  split; simpl; try done.
  - constructor.
  - intros l Hl. by apply elem_of_nil in Hl.
Qed.

Lemma traced_new address options :
  traced (fst (new address options)) (snd (new address options)).
Proof.
  split; simpl; try (constructor; fail).
  - intros l Hl. by apply elem_of_nil in Hl.
  - intros k Hk. by apply elem_of_nil in Hk.
Qed.

Lemma register_fields cb k z :
  nextMessageId (register cb k z) = nextMessageId z
  ∧ waitingMessages (register cb k z) = waitingMessages z
  ∧ websocketConnected (register cb k z) = websocketConnected z
  ∧ reconnect (register cb k z) = reconnect z
  ∧ nextAttemptId (register cb k z) = nextAttemptId z
  ∧ websocket (register cb k z) = websocket z.
Proof. destruct cb; simpl; repeat split. Qed.

Lemma register_lookup cb k z k' :
  waitingCallbacks (register cb k z) !! k'
  = match cb with
    | Some f => if decide (k = k') then Some f else waitingCallbacks z !! k'
    | None => waitingCallbacks z !! k'
    end.
Proof. destruct cb; simpl; [apply lookup_insert | done]. Qed.

(** The state after [post], field by field. *)
Lemma post_fields m cb r :
  let r' := fst (post m cb r) in
  nextMessageId (this r') = nextMessageId (this r) + 1
  ∧ objects r' = objects r ++ [set_id (Some (nextMessageId (this r))) m]
  ∧ waitingMessages (this r')
    = (if websocketConnected (this r) then waitingMessages (this r)
       else waitingMessages (this r) ++ [length (objects r)])
  ∧ (∀ k', waitingCallbacks (this r') !! k'
           = match cb with
             | Some f => if decide (nextMessageId (this r) = k') then Some f
                         else waitingCallbacks (this r) !! k'
             | None => waitingCallbacks (this r) !! k'
             end)
  ∧ promises r' = promises r
  ∧ websocketConnected (this r') = websocketConnected (this r).
Proof.
  unfold post.
  destruct cb as [f |], (websocketConnected (this r)) eqn:E; simpl; rewrite ?E;
    repeat split; intros; rewrite ?lookup_insert; done.
Qed.

Lemma post_wf m cb r :
  wf r →
  (∀ p, cb = Some (Settle p) →
        promises r !! p = Some Pending
        ∧ ∀ k, waitingCallbacks (this r) !! k ≠ Some (Settle p)) →
  wf (fst (post m cb r)).
Proof.
  intros [Hn Hi Hd Hb Hk Hs] Hcb.
  destruct (post_fields m cb r) as (En & Eo & Eq & Ec & Ep & _).
  split.
  - rewrite En, Eo, length_app. simpl. lia.
  - intros i x. rewrite Eo. intros [Hx | [Hlen Hx]]%lookup_app_Some.
    + by apply Hi.
    + destruct (i - length (objects r))%nat eqn:Hd0; [| done].
      simpl in Hx. injection Hx as <-. simpl. f_equal. lia.
  - rewrite Eq. destruct (websocketConnected (this r)); [done |].
    apply NoDup_app. repeat split; [done | | apply NoDup_singleton].
    intros l Hl ->%list_elem_of_singleton. apply Hb in Hl. lia.
  - intros l. rewrite Eq, Eo, length_app. simpl.
    destruct (websocketConnected (this r)).
    + intros Hl%Hb. lia.
    + intros [Hl%Hb | ->%list_elem_of_singleton]%elem_of_app; lia.
  - intros k c. rewrite Ec, En. destruct cb as [f |].
    + case_decide as Hkk.
      * intros _. subst k. rewrite Hn. lia.
      * intros Hl%Hk. lia.
    + intros Hl%Hk. lia.
  - intros k p. rewrite Ec, Ep. destruct cb as [f |].
    + case_decide as Hkk.
      * intros [= ->]. destruct (Hcb p eq_refl) as [Hp Hfresh]. split; [done |].
        intros k'. rewrite Ec. case_decide; [congruence |].
        intros Hl. by apply Hfresh in Hl.
      * intros Hl. destruct (Hs k p Hl) as [Hp Hu]. split; [done |].
        intros k'. rewrite Ec. case_decide as Hk'.
        -- intros [= ->]. destruct (Hcb p eq_refl) as [_ Hfresh].
           by apply Hfresh in Hl.
        -- apply Hu.
    + intros Hl. destruct (Hs k p Hl) as [Hp Hu]. split; [done |].
      intros k'. rewrite Ec. apply Hu.
Qed.

Lemma unprocessed_app_l r r' l x :
  objects r' = objects r ++ x → (l < length (objects r))%nat →
  unprocessed r' l = unprocessed r l.
Proof. intros Ho Hl. unfold unprocessed. by rewrite Ho, lookup_app_l. Qed.

Lemma post_sent m cb r :
  sent (snd (post m cb r))
  = if websocketConnected (this r) then [length (objects r)] else [].
Proof. unfold post. simpl. by destruct (websocketConnected (this r)). Qed.

Lemma post_called m cb r : called (snd (post m cb r)) = [].
Proof. unfold post. simpl. by destruct (websocketConnected (this r)). Qed.

Lemma post_traced m cb r past :
  wf r → traced r past →
  traced (fst (post m cb r)) (past ++ snd (post m cb r)).
Proof.
  intros [Hn Hi Hd Hb Hk Hs] [Tn Ts Cn Cs].
  destruct (post_fields m cb r) as (En & Eo & Eq & Ec & Ep & _).
  pose proof (post_sent m cb r) as Es.
  pose proof (returned_called _ (post_called m cb r)) as Ek.
  destruct (post m cb r) as [r' out]. simpl in *.
  assert (Hold : ∀ l, l ∈ sent past →
    (l < length (objects r'))%nat
    ∧ (l ∈ waitingMessages (this r') → unprocessed r' l = false)).
  { intros l [Hlt Hu]%Ts. rewrite Eo at 1. rewrite length_app. split; [lia |].
    rewrite (unprocessed_app_l r _ l _ Eo Hlt), Eq.
    destruct (websocketConnected (this r)); [done |].
    intros [Hq | Hq%list_elem_of_singleton]%elem_of_app; [auto | lia]. }
  split; rewrite ?sent_app, ?returned_app, ?Es, ?Ek, ?app_nil_r.
  - destruct (websocketConnected (this r)); [| by rewrite app_nil_r].
    apply NoDup_app. repeat split; [done | | apply NoDup_singleton].
    intros l [Hl _]%Ts Hl'%list_elem_of_singleton. lia.
  - intros l Hl. destruct (websocketConnected (this r)) eqn:Hc.
    + apply elem_of_app in Hl as [Hl | Hl%list_elem_of_singleton]; [auto |].
      rewrite Eo at 1. rewrite length_app. simpl.
      split; [lia |]. rewrite Eq. intros Hq%Hb. lia.
    + rewrite app_nil_r in Hl. auto.
  - done.
  - intros k [Hnone Hlt]%Cs. rewrite Ec, En.
    split; [| lia]. destruct cb; [| done].
    case_decide; [lia | done].
Qed.

(** ** Flushing the queue *)

Lemma set_processed_id m : processed m = true → set_processed true m = m.
Proof. destruct m. simpl. by intros ->. Qed.

Lemma flush_one_cases message r :
  (unprocessed r message = false ∧ flush_one message r = (r, []))
  ∨ (∃ m, objects r !! message = Some m ∧ processed m = false
          ∧ unprocessed r message = true
          ∧ flush_one message r
            = (set_objects (<[message := set_processed true m]> (objects r)) r,
               [Send (websocket (this r)) message m])).
Proof.
  unfold flush_one, unprocessed.
  destruct (objects r !! message) as [m |] eqn:Hm; [| by left].
  destruct (processed m) eqn:Hp; [by left |].
  right. by exists m.
Qed.

Lemma unprocessed_insert_ne r l a x :
  l ≠ a → unprocessed (set_objects (<[a := x]> (objects r)) r) l = unprocessed r l.
Proof. intros Hne. unfold unprocessed. simpl. by rewrite list_lookup_insert_ne. Qed.

(** The loop of [_onOpenWebsocket]: the entries not yet processed go to the
    socket in the order of the queue, each as it is in the store, and all
    entries are marked; nothing else changes. *)
Lemma mark_nil l m : mark [] l m = m.
Proof. unfold mark. by rewrite decide_False by apply not_elem_of_nil. Qed.

Lemma mark_here a q m : mark (a :: q) a m = set_processed true m.
Proof. unfold mark. by rewrite decide_True by apply list_elem_of_here. Qed.

Lemma mark_further a q l m : l ≠ a → mark (a :: q) l m = mark q l m.
Proof.
  intros Hne. unfold mark. destruct (decide (l ∈ q)) as [Hin | Hin].
  - by rewrite decide_True by by apply list_elem_of_further.
  - rewrite decide_False; [done |]. by intros [-> | ?]%elem_of_cons.
Qed.

Lemma flush_spec q r :
  NoDup q →
  ∃ store,
    flush q r
    = (set_objects store r,
       (λ l, Send (websocket (this r)) l (objects r !!! l))
         <$> List.filter (unprocessed r) q)
    ∧ length store = length (objects r)
    ∧ (∀ l, store !! l = mark q l <$> objects r !! l).
Proof.
  revert r. induction q as [| a q IH]; intros r Hnd.
  - exists (objects r). destruct r. repeat split.
    intros l. simpl. destruct (_ !! l); [| done]. simpl. by rewrite mark_nil.
  - apply NoDup_cons in Hnd as [Ha Hnd]. simpl.
    destruct (flush_one_cases a r) as [[Hu ->] | (m & Hm & Hp & Hu & ->)].
    + destruct (IH r Hnd) as (store & -> & Hlen & Hst). rewrite Hu.
      exists store. repeat split; [done |].
      intros l. rewrite Hst.
      destruct (objects r !! l) as [x |] eqn:Hx; [| done]. simpl. f_equal.
      destruct (decide (l = a)) as [-> | Hne]; [| by rewrite mark_further].
      rewrite mark_here. unfold mark. rewrite decide_False by done.
      unfold unprocessed in Hu. rewrite Hx in Hu.
      symmetry. apply set_processed_id. by destruct (processed x).
    + destruct (IH (set_objects (<[a := set_processed true m]> (objects r)) r) Hnd)
        as (store & -> & Hlen & Hst).
      rewrite Hu. simpl in *. exists store. repeat split.
      * f_equal. simpl. f_equal.
        -- f_equal. symmetry. by apply list_lookup_total_correct.
        -- rewrite (List.filter_ext_in (unprocessed (set_objects
                 (<[a := set_processed true m]> (objects r)) r)) (unprocessed r)).
           2:{ intros l Hl%list_elem_of_In. apply unprocessed_insert_ne.
               by intros ->. }
           apply list_fmap_ext. intros i l Hl. f_equal.
           assert (l ≠ a).
           { intros ->. apply Ha.
             apply list_elem_of_lookup_2 in Hl.
             by apply list_elem_of_In, List.filter_In in Hl as [Hl%list_elem_of_In _]. }
           by rewrite list_lookup_total_insert_ne.
      * by rewrite Hlen, length_insert.
      * intros l. rewrite Hst.
        destruct (decide (l = a)) as [-> | Hne].
        -- rewrite list_lookup_insert_eq by by eapply lookup_lt_Some.
           rewrite Hm. simpl. rewrite mark_here. unfold mark.
           by rewrite decide_False by done.
        -- rewrite list_lookup_insert_ne by done.
           destruct (objects r !! l) as [x |]; [| done]. simpl.
           by rewrite mark_further.
Qed.

Lemma id_mark q l m : id (mark q l m) = id m.
Proof. unfold mark. by case_decide. Qed.

Lemma processed_mark q l m : l ∈ q → processed (mark q l m) = true.
Proof. intros Hl. unfold mark. by rewrite decide_True. Qed.

(** [_onOpenWebsocket] as a whole. *)
Lemma open_spec r :
  NoDup (waitingMessages (this r)) →
  ∃ store,
    _onOpenWebsocket r
    = (set_objects store (set_this (set_websocketConnected true (this r)) r),
       ((λ l, Send (websocket (this r)) l (objects r !!! l)) <$> pending r)
       ++ [OnOpenWebsocket])
    ∧ length store = length (objects r)
    ∧ (∀ l, store !! l = mark (waitingMessages (this r)) l <$> objects r !! l).
Proof.
  intros Hnd. unfold _onOpenWebsocket.
  destruct (flush_spec (waitingMessages (this r))
              (set_this (set_websocketConnected true (this r)) r) Hnd)
    as (store & Hf & Hlen & Hst).
  cbv zeta.
  change (waitingMessages (this (set_this (set_websocketConnected true (this r)) r)))
    with (waitingMessages (this r)).
  rewrite Hf. exists store. split; [reflexivity | by split].
Qed.

Lemma sent_sends (ws : option nat) (f : nat → Message) (q : list nat) :
  sent ((λ l, Send ws l (f l)) <$> q) = q.
Proof.
  induction q as [| a q IH]; [done |].
  change (a :: sent ((λ l, Send ws l (f l)) <$> q) = a :: q). by f_equal.
Qed.

Lemma called_sends (ws : option nat) (f : nat → Message) (q : list nat) :
  called ((λ l, Send ws l (f l)) <$> q) = [].
Proof. unfold called. by induction q. Qed.

Lemma elem_of_pending r l :
  l ∈ pending r ↔ l ∈ waitingMessages (this r) ∧ unprocessed r l = true.
Proof. unfold pending. by rewrite list_elem_of_In, List.filter_In, <- list_elem_of_In. Qed.

Lemma NoDup_pending r : NoDup (waitingMessages (this r)) → NoDup (pending r).
Proof.
  rewrite !NoDup_ListNoDup. apply List.NoDup_filter.
Qed.

Lemma open_wf r r' out : wf r → _onOpenWebsocket r = (r', out) → wf r'.
Proof.
  intros [Hn Hi Hd Hb Hk Hs] Ho.
  destruct (open_spec r Hd) as (store & E & Hlen & Hst).
  rewrite E in Ho. injection Ho as <- <-.
  split; simpl; rewrite ?Hlen; try assumption.
  intros i m. rewrite Hst. destruct (objects r !! i) as [x |] eqn:Hx; [| done].
  simpl. intros [= <-]. rewrite id_mark. by apply Hi.
Qed.

Lemma open_traced r r' out past :
  wf r → traced r past → _onOpenWebsocket r = (r', out) →
  traced r' (past ++ out).
Proof.
  intros [Hn Hi Hd Hb Hk Hs] [Tn Ts Cn Cs] Ho.
  destruct (open_spec r Hd) as (store & E & Hlen & Hst).
  rewrite E in Ho. injection Ho as <- <-.
  assert (Hq : ∀ l, l ∈ waitingMessages (this r) →
    unprocessed (set_objects store (set_this (set_websocketConnected true (this r)) r)) l
    = false).
  { intros l Hl. unfold unprocessed. simpl. rewrite Hst.
    destruct (objects r !! l); [| done]. simpl. by rewrite processed_mark. }
  split; rewrite ?sent_app, ?returned_app, ?sent_sends,
    ?(returned_called _ (called_sends _ _ _)); simpl; rewrite ?app_nil_r.
  - apply NoDup_app. repeat split; [done | | by apply NoDup_pending].
    intros l [_ Hl]%Ts [Hin Hu]%elem_of_pending. rewrite Hl in Hu; done.
  - intros l. rewrite Hlen. intros [[Hlt _]%Ts | [Hin _]%elem_of_pending]%elem_of_app;
      (split; [auto | apply Hq]).
  - done.
  - done.
Qed.

(** Calling a callback touches the promise of that callback only. *)
Lemma invoke_fields cb res r :
  this (invoke cb res r) = this r
  ∧ objects (invoke cb res r) = objects r
  ∧ length (promises (invoke cb res r)) = length (promises r)
  ∧ (∀ p', cb ≠ Settle p' →
           promises (invoke cb res r) !! p' = promises r !! p').
Proof.
  unfold invoke. destruct cb as [f | p]; [done |].
  destruct (promises r !! p) as [st |]; [| done].
  destruct (truthy res && truthy (get res "error")); simpl;
    rewrite length_insert; repeat split;
    intros p' Hne; apply list_lookup_insert_ne; congruence.
Qed.

(** ** Inbound frames *)

(** The ways [_onRequest] can go. *)
Lemma onRequest_cases message r :
  (∃ k cb, cmd message = CMD_RESPONSE ∧ to message = Some k
           ∧ waitingCallbacks (this r) !! k = Some cb
           ∧ throws cb (result message) = false
           ∧ _onRequest message r
             = (set_this (set_waitingCallbacks
                            (delete k (waitingCallbacks (this (invoke cb (result message) r))))
                            (this (invoke cb (result message) r)))
                         (invoke cb (result message) r),
                [Call k cb (result message)]))
  ∨ (cmd message = CMD_RESPONSE
     ∧ (∀ k, to message = Some k → waitingCallbacks (this r) !! k = None)
     ∧ _onRequest message r = (r, []))
  ∨ (cmd message = CMD_PING
     ∧ _onRequest message r = response (id message) (JStr CMD_PONG) r)
  ∨ (cmd message ≠ CMD_RESPONSE ∧ cmd message ≠ CMD_PING
     ∧ _onRequest message r = (r, [OnRequest (cmd message) message]))
  ∨ (∃ k f, cmd message = CMD_RESPONSE ∧ to message = Some k
            ∧ waitingCallbacks (this r) !! k = Some (Handler f)
            ∧ raises f (result message) = true
            ∧ _onRequest message r = (r, [Call k (Handler f) (result message)])).
Proof.
  unfold _onRequest.
  destruct (String.eqb_spec (cmd message) CMD_RESPONSE) as [Hr | Hr].
  - destruct (to message) as [k |] eqn:Hto.
    + destruct (waitingCallbacks (this r) !! k) as [cb |] eqn:Hcb.
      * destruct (throws cb (result message)) eqn:Hth.
        -- do 4 right. destruct cb as [f | p]; [| done]. by exists k, f.
        -- left. by exists k, cb.
      * right. left. repeat split; [done |]. by intros ? [= <-].
    + right. left. by repeat split.
  - destruct (String.eqb_spec (cmd message) CMD_PING) as [Hp | Hp].
    + right. right. left. by split.
    + right. right. right. left. by repeat split.
Qed.

Lemma returned_thrown k f res :
  raises f res = true → returned [Call k (Handler f) res] = [].
Proof. intros H. unfold returned. simpl. unfold completion. simpl. by rewrite H. Qed.

Lemma returned_call k cb res :
  throws cb res = false → returned [Call k cb res] = [k].
Proof. intros H. unfold returned. simpl. unfold completion. simpl. by rewrite H. Qed.

Lemma answer_wf k cb res r :
  wf r → waitingCallbacks (this r) !! k = Some cb →
  wf (set_this (set_waitingCallbacks
                  (delete k (waitingCallbacks (this (invoke cb res r))))
                  (this (invoke cb res r)))
               (invoke cb res r)).
Proof.
  intros [Hn Hi Hd Hb Hk Hs] Hcb.
  destruct (invoke_fields cb res r) as (Et & Eo & El & Ep).
  split; simpl; rewrite ?Et, ?Eo; try assumption.
  - intros k' c [_ Hl]%lookup_delete_Some. by eapply Hk.
  - intros k' p [Hne Hl]%lookup_delete_Some.
    destruct (Hs k' p Hl) as [Hp Hu]. split.
    + rewrite Ep; [done |]. intros ->. apply Hne. by apply Hu.
    + intros k'' [_ Hl']%lookup_delete_Some. by apply Hu.
Qed.

Lemma answer_traced k cb res r past :
  wf r → traced r past → waitingCallbacks (this r) !! k = Some cb →
  throws cb res = false →
  traced (set_this (set_waitingCallbacks
                      (delete k (waitingCallbacks (this (invoke cb res r))))
                      (this (invoke cb res r)))
                   (invoke cb res r))
         (past ++ [Call k cb res]).
Proof.
  intros [Hn Hi Hd Hb Hk Hs] [Tn Ts Cn Cs] Hcb Hth.
  destruct (invoke_fields cb res r) as (Et & Eo & El & Ep).
  split; rewrite ?sent_app, ?returned_app, ?(returned_call _ _ _ Hth); simpl;
    rewrite ?app_nil_r, ?Et, ?Eo.
  - done.
  - intros l Hl. unfold unprocessed. simpl. rewrite Eo. by apply Ts.
  - apply NoDup_app. repeat split; [done | | apply NoDup_singleton].
    intros k' [Hnone _]%Cs ->%list_elem_of_singleton. congruence.
  - intros k' [[Hnone Hlt]%Cs | ->%list_elem_of_singleton]%elem_of_app.
    + split; [| done]. apply lookup_delete_None. by right.
    + split; [apply lookup_delete_eq |]. apply Hk in Hcb. lia.
Qed.

Lemma onRequest_wf message r r' out :
  wf r → _onRequest message r = (r', out) → wf r'.
Proof.
  intros Hwf.
  destruct (onRequest_cases message r)
    as [(k & cb & _ & _ & Hcb & _ & ->) | [(_ & _ & ->) | [(_ & ->)
       | [(_ & _ & ->) | (k & f & _ & _ & _ & _ & ->)]]]].
  - intros [= <- <-]. by apply answer_wf.
  - by intros [= <- <-].
  - rewrite response_post. intros E.
    replace r' with (fst (post (mkMessage None CMD_RESPONSE JUndefined
                                  (id message) (JStr CMD_PONG) false) None r))
      by by rewrite E.
    by apply post_wf.
  - by intros [= <- <-].
  - by intros [= <- <-].
Qed.

Lemma onRequest_traced message r r' out past :
  wf r → traced r past → _onRequest message r = (r', out) →
  traced r' (past ++ out).
Proof.
  intros Hwf Htr.
  destruct (onRequest_cases message r)
    as [(k & cb & _ & _ & Hcb & Hth & ->) | [(_ & _ & ->) | [(_ & ->)
       | [(_ & _ & ->) | (k & f & _ & _ & _ & Hth & ->)]]]].
  - intros [= <- <-]. by apply answer_traced.
  - intros [= <- <-]. by rewrite app_nil_r.
  - rewrite response_post. intros E.
    pose proof (post_traced (mkMessage None CMD_RESPONSE JUndefined
                  (id message) (JStr CMD_PONG) false) None r past Hwf Htr) as H.
    by rewrite E in H.
  - intros [= <- <-]. by apply (traced_core r).
  - intros [= <- <-]. apply (traced_still r); [done | done | | done].
    by apply returned_thrown.
Qed.

(** ** Every event keeps the invariant *)

Lemma wf_promise_new r : wf r → wf (set_promises (promises r ++ [Pending]) r).
Proof.
  intros [Hn Hi Hd Hb Hk Hs]. split; simpl; try assumption.
  intros k p Hl. destruct (Hs k p Hl) as [Hp Hu]. split; [| done].
  by apply lookup_app_l_Some.
Qed.

Lemma cmdp_wf name args r : wf r → wf (cmdp name args r).1.2.
Proof.
  intros Hwf. rewrite cmdp_post. cbn [fst snd]. apply post_wf.
  - by apply wf_promise_new.
  - intros p [= <-]. simpl. split.
    + by rewrite lookup_app_r, Nat.sub_diag.
    + intros k Hk. apply (wf_settle r Hwf) in Hk as [Hp%lookup_lt_Some _]. lia.
Qed.

Lemma cmdp_traced name args r past :
  wf r → traced r past →
  traced (cmdp name args r).1.2 (past ++ (cmdp name args r).2).
Proof.
  intros Hwf Htr. rewrite cmdp_post. cbn [fst snd]. apply post_traced.
  - by apply wf_promise_new.
  - destruct Htr. by split.
Qed.

Lemma proxy_cmdp name arguments r :
  ∃ args, proxy name arguments r = cmdp name args r.
Proof.
  unfold proxy. destruct (length arguments =? 0)%nat; [by eexists |].
  destruct (_ && _); by eexists.
Qed.


Lemma handle_core e r :
  match e with
  | Failed | Closed | TimerFired | PageFetched _ =>
    core (handle e r).1 = core r
    ∧ sent (handle e r).2 = [] ∧ called (handle e r).2 = []
  | _ => True
  end.
Proof.
  destruct e; simpl; try done.
  - unfold _onCloseWebsocket. simpl.
    destruct (_ =? 0); [done |]. by destruct (_ && _).
  - unfold reconnect_timer. by destruct (timers r).
  - unfold _connect_resume. by destruct (fetching r).
Qed.

Lemma handle_wf e r r' out : wf r → handle e r = (r', out) → wf r'.
Proof.
  intros Hwf. destruct e; simpl.
  - rewrite cmd_post. intros E.
    replace r' with (fst (post (mkMessage None name (or_empty args) None
                                  JUndefined false) (Handler <$> cb) r))
      by by rewrite E.
    apply post_wf; [done |]. by destruct cb.
  - pose proof (cmdp_wf name args r Hwf) as H.
    destruct (cmdp name args r) as [[p r1] o1]. by intros [= <- <-].
  - destruct (proxy_cmdp name arguments r) as [args ->].
    pose proof (cmdp_wf name args r Hwf) as H.
    destruct (cmdp name args r) as [[p r1] o1]. by intros [= <- <-].
  - rewrite response_post. intros E.
    replace r' with (fst (post (mkMessage None CMD_RESPONSE JUndefined
                                  target res false) None r))
      by by rewrite E.
    by apply post_wf.
  - by apply onRequest_wf.
  - by apply open_wf.
  - by intros [= <- <-].
  - intros E. pose proof (handle_core Closed r) as (Hc & _). simpl in Hc.
    rewrite E in Hc. by apply (wf_core r).
  - intros E. pose proof (handle_core TimerFired r) as (Hc & _). simpl in Hc.
    rewrite E in Hc. by apply (wf_core r).
  - intros E. pose proof (handle_core (PageFetched key) r) as (Hc & _). simpl in Hc.
    rewrite E in Hc. by apply (wf_core r).
Qed.

Lemma handle_traced e r r' out past :
  wf r → traced r past → handle e r = (r', out) → traced r' (past ++ out).
Proof.
  intros Hwf Htr. destruct e; simpl.
  - rewrite cmd_post. intros E.
    pose proof (post_traced (mkMessage None name (or_empty args) None
                  JUndefined false) (Handler <$> cb) r past Hwf Htr) as H.
    by rewrite E in H.
  - pose proof (cmdp_traced name args r past Hwf Htr) as H.
    destruct (cmdp name args r) as [[p r1] o1]. by intros [= <- <-].
  - destruct (proxy_cmdp name arguments r) as [args ->].
    pose proof (cmdp_traced name args r past Hwf Htr) as H.
    destruct (cmdp name args r) as [[p r1] o1]. by intros [= <- <-].
  - rewrite response_post. intros E.
    pose proof (post_traced (mkMessage None CMD_RESPONSE JUndefined
                  target res false) None r past Hwf Htr) as H.
    by rewrite E in H.
  - by apply onRequest_traced.
  - by apply open_traced.
  - intros [= <- <-]. by apply (traced_core r).
  - intros E. pose proof (handle_core Closed r) as (Hc & Hs & Hk). simpl in *.
    rewrite E in *. by apply (traced_core r).
  - intros E. pose proof (handle_core TimerFired r) as (Hc & Hs & Hk). simpl in *.
    rewrite E in *. by apply (traced_core r).
  - intros E. pose proof (handle_core (PageFetched key) r) as (Hc & Hs & Hk).
    simpl in *. rewrite E in *. by apply (traced_core r).
Qed.

Lemma run_wf es r r' out : wf r → run es r = (r', out) → wf r'.
Proof.
  revert r r' out. induction es as [| e es IH]; intros r r' out Hwf; simpl.
  - by intros [= <- <-].
  - destruct (handle e r) as [r1 o1] eqn:He.
    destruct (run es r1) as [r2 o2] eqn:Hr. intros [= <- <-].
    eapply IH; [| done]. by eapply handle_wf.
Qed.

Lemma run_traced es r r' out past :
  wf r → traced r past → run es r = (r', out) → traced r' (past ++ out).
Proof.
  revert r r' out past. induction es as [| e es IH]; intros r r' out past Hwf Htr; simpl.
  - intros [= <- <-]. by rewrite app_nil_r.
  - destruct (handle e r) as [r1 o1] eqn:He.
    destruct (run es r1) as [r2 o2] eqn:Hr. intros [= <- <-].
    rewrite app_assoc. eapply IH; [| | done].
    + by eapply handle_wf.
    + by eapply handle_traced.
Qed.

Lemma session_wf address options es r out :
  session address options es = (r, out) → wf r ∧ traced r out.
Proof.
  unfold session. pose proof (wf_new address options) as Hwf.
  pose proof (traced_new address options) as Htr.
  destruct (new address options) as [r0 o0]. simpl in *.
  destruct (run es r0) as [r1 o1] eqn:Hr. intros [= <- <-]. split.
  - by eapply run_wf.
  - by eapply run_traced.
Qed.

(** ** The store along a run *)

Lemma proxy_as_cmdp name arguments r :
  proxy name arguments r = cmdp name (proxy_params arguments) r.
Proof.
  unfold proxy, proxy_params. destruct (length arguments =? 0)%nat; [done |].
  by destruct (_ && _).
Qed.

(** An event that sends goes through [post]. *)
Lemma handle_outgoing e r m :
  outgoing e = Some m →
  ∃ cb r0, handle e r = post m cb r0
           ∧ this r0 = this r ∧ objects r0 = objects r.
Proof.
  destruct e; simpl; try done.
  - intros [= <-]. exists (Handler <$> cb), r. by rewrite cmd_post.
  - intros [= <-]. rewrite cmdp_post.
    exists (Some (Settle (length (promises r)))),
           (set_promises (promises r ++ [Pending]) r).
    split; [| done]. by destruct (post _ _ _).
  - intros [= <-]. rewrite proxy_as_cmdp, cmdp_post.
    exists (Some (Settle (length (promises r)))),
           (set_promises (promises r ++ [Pending]) r).
    split; [| done]. by destruct (post _ _ _).
  - intros [= <-]. exists None, r. by rewrite response_post.
  - destruct (String.eqb_spec (cmd message) CMD_PING) as [Hp | Hp]; [| done].
    intros [= <-]. exists None, r. rewrite <- response_post.
    unfold _onRequest. rewrite Hp. done.
Qed.

(** An event that does not send leaves the store as long as it was. *)
Lemma flush_this q r :
  this (flush q r).1 = this r ∧ promises (flush q r).1 = promises r
  ∧ sockets (flush q r).1 = sockets r ∧ timers (flush q r).1 = timers r
  ∧ fetching (flush q r).1 = fetching r
  ∧ scheduled (flush q r).2 = 0%nat ∧ connections (flush q r).2 = 0%nat.
Proof.
  revert r. induction q as [| a q IH]; intros r; [done |]. simpl.
  destruct (flush_one_cases a r) as [[_ ->] | (m & _ & _ & _ & ->)].
  - specialize (IH r). by destruct (flush q r).
  - specialize (IH (set_objects (<[a:=set_processed true m]> (objects r)) r)).
    by destruct (flush q _).
Qed.

Lemma set_processed_same m : set_processed (processed m) m = m.
Proof. by destruct m. Qed.

Lemma evolves_refl o : evolves o o.
Proof. intros l m Hm. exists (processed m). by rewrite set_processed_same. Qed.

Lemma evolves_trans o1 o2 o3 : evolves o1 o2 → evolves o2 o3 → evolves o1 o3.
Proof.
  intros H12 H23 l m Hm. destruct (H12 l m Hm) as [b Hb].
  destruct (H23 l _ Hb) as [b' Hb']. by exists b'.
Qed.

Lemma evolves_app o x : evolves o (o ++ x).
Proof.
  intros l m Hm. exists (processed m).
  rewrite set_processed_same. by apply lookup_app_l_Some.
Qed.

Lemma handle_store e r :
  wf r →
  evolves (objects r) (objects (handle e r).1)
  ∧ match outgoing e with
    | Some m => objects (handle e r).1
                = objects r ++ [set_id (Some (nextMessageId (this r))) m]
    | None => length (objects (handle e r).1) = length (objects r)
    end.
Proof.
  intros Hwf. destruct (outgoing e) as [m |] eqn:Hout.
  - destruct (handle_outgoing e r m Hout) as (cb & r0 & -> & Ht & Ho).
    destruct (post_fields m cb r0) as (_ & Eo & _). rewrite Eo, Ho, Ht.
    split; [apply evolves_app | done].
  - destruct e; simpl in *; try done; try (split; [apply evolves_refl | done]).
    + destruct (String.eqb_spec (cmd message) CMD_PING) as [Hp | Hp]; [done |].
      destruct (onRequest_cases message r)
        as [(k & cb & _ & _ & _ & Hth & ->) | [(_ & _ & ->) | [(Hp' & _) | [(_ & _ & ->)
           | (kt & ft & _ & _ & _ & _ & ->)]]]];
        try done; try (split; [apply evolves_refl | done]).
      simpl. destruct (invoke_fields cb (result message) r) as (_ & -> & _).
      split; [apply evolves_refl | done].
    + destruct (open_spec r (wf_queue_nodup r Hwf)) as (store & -> & Hlen & Hst).
      simpl. split; [| done]. intros l m Hm. rewrite Hst, Hm. simpl.
      unfold mark. case_decide; [by exists true |].
      exists (processed m). by rewrite set_processed_same.
    + pose proof (handle_core Closed r) as ([= _ -> _ _ _] & _).
      split; [apply evolves_refl | done].
    + pose proof (handle_core TimerFired r) as ([= _ -> _ _ _] & _).
      split; [apply evolves_refl | done].
    + pose proof (handle_core (PageFetched key) r) as ([= _ -> _ _ _] & _).
      split; [apply evolves_refl | done].
Qed.

(** The messages sent along a run are the objects added to the store, in
    the order of sending, and the object at index [i] has identifier
    [i + 1]. *)
Lemma run_store es r :
  wf r →
  evolves (objects r) (objects (run es r).1)
  ∧ length (objects (run es r).1)
    = (length (objects r) + length (omap outgoing es))%nat
  ∧ ∀ n m, omap outgoing es !! n = Some m →
           ∃ b, objects (run es r).1 !! (length (objects r) + n)%nat
                = Some (set_processed b
                          (set_id (Some (Z.of_nat (length (objects r) + n) + 1)) m)).
Proof.
  revert r. induction es as [| e es IH]; intros r Hwf; simpl.
  - split; [apply evolves_refl |]. split; [lia | done].
  - destruct (handle e r) as [r1 o1] eqn:He.
    assert (Hwf1 : wf r1) by by eapply handle_wf.
    destruct (handle_store e r Hwf) as [Hev Hadd]. rewrite He in Hev, Hadd.
    simpl in Hev, Hadd.
    destruct (IH r1 Hwf1) as (Hev' & Hlen' & Hnew).
    destruct (run es r1) as [r2 o2]. simpl in *.
    change (list_omap Event Message outgoing es) with (omap outgoing es) in *.
    split; [by eapply evolves_trans |].
    destruct (outgoing e) as [m0 |].
    + rewrite Hadd, length_app in Hlen', Hnew. simpl in *.
      split; [lia |]. intros [| n] m Hm.
      * injection Hm as <-.
        destruct (Hev' (length (objects r))
                    (set_id (Some (nextMessageId (this r))) m0)) as [b Hb].
        { by rewrite Hadd, lookup_app_r, Nat.sub_diag. }
        exists b. rewrite Nat.add_0_r, Hb. rewrite (wf_next r Hwf). done.
      * destruct (Hnew n m Hm) as [b Hb]. exists b.
        replace (length (objects r) + S n)%nat
          with (length (objects r) + 1 + n)%nat by lia. done.
    + rewrite Hadd in Hlen', Hnew. split; [lia | done].
Qed.

(** [_send] on any object of the store: the identifier is assigned, and
    the counter advanced, exactly when the object lacks one. *)
Lemma send_identifier r l m cb :
  objects r !! l = Some m →
  objects (_send l cb r).1 !! l
  = Some (if lacks_id m then set_id (Some (nextMessageId (this r))) m else m)
  ∧ nextMessageId (this (_send l cb r).1)
    = (if lacks_id m then nextMessageId (this r) + 1 else nextMessageId (this r)).
Proof.
  intros Hm. unfold _send. rewrite Hm.
  pose proof (lookup_lt_Some _ _ _ Hm) as Hlt.
  destruct (lacks_id m), (websocketConnected (this r)) eqn:Hc, cb; simpl;
    rewrite ?Hc; simpl; by rewrite list_lookup_insert_eq.
Qed.

Lemma session_store address options es :
  length (objects (session address options es).1) = length (omap outgoing es)
  ∧ ∀ n m, omap outgoing es !! n = Some m →
           ∃ b, objects (session address options es).1 !! n
                = Some (set_processed b (set_id (Some (Z.of_nat n + 1)) m)).
Proof.
  unfold session. pose proof (wf_new address options) as Hwf.
  assert (Hnil : objects (new address options).1 = []) by done.
  destruct (new address options) as [r0 o0]. simpl in *.
  destruct (run_store es r0 Hwf) as (_ & Hlen & Hnew).
  destruct (run es r0) as [r1 o1]. simpl in *. rewrite Hnil in *. done.
Qed.

(** C6.  Identifiers are given out in the order of sending, from 1 on.
    A new client has the counter at 1; after any run the store holds one
    object per message sent, in the order of sending, the [n]-th of them
    (index [n - 1]) with identifier [n], and the counter is one past the
    number of messages sent.  On the send path itself the identifier is
    assigned and the counter advanced exactly when the message has no
    (truthy) identifier; otherwise both are left as they are. *)
Theorem identifiers_sequential address options es :
  nextMessageId (this (new address options).1) = 1
  ∧ length (objects (session address options es).1) = length (omap outgoing es)
  ∧ nextMessageId (this (session address options es).1)
    = Z.of_nat (length (omap outgoing es)) + 1
  ∧ (∀ n m, omap outgoing es !! n = Some m →
            ∃ b, objects (session address options es).1 !! n
                 = Some (set_processed b (set_id (Some (Z.of_nat n + 1)) m)))
  ∧ (∀ r l m cb, objects r !! l = Some m →
       objects (_send l cb r).1 !! l
       = Some (if lacks_id m then set_id (Some (nextMessageId (this r))) m else m)
       ∧ nextMessageId (this (_send l cb r).1)
         = (if lacks_id m then nextMessageId (this r) + 1 else nextMessageId (this r))).
Proof.
  destruct (session_store address options es) as [Hlen Hnew].
  split; [done |]. split; [done |]. split.
  - destruct (session address options es) as [r out] eqn:Hs.
    apply session_wf in Hs as [Hwf _]. simpl in *.
    by rewrite (wf_next r Hwf), Hlen.
  - split; [done |]. intros r l m cb. apply send_identifier.
Qed.

(** A client sends three commands before the socket opens, is pinged
    afterwards, and sends a fourth: the identifiers are 1, 2, 3, 4, 5. *)
Lemma identifiers_sequential_witness :
  let es := [CallCmd "siteInfo" JUndefined None; CallCmdp "fileGet" (JObj []);
             CallResponse (Some 9) (JStr "ok"); PageFetched "key"; Opened;
             Incoming (mkMessage (Some 7) CMD_PING JUndefined None JUndefined false);
             CallProxy "serverInfo" []] in
  id <$> objects (session "1HeLLo" defaults es).1
  = [Some 1; Some 2; Some 3; Some 4; Some 5]
  ∧ ∃ b, objects (session "1HeLLo" defaults es).1 !! 4%nat
         = Some (set_processed b
                   (mkMessage (Some 5) "serverInfo" (JObj []) None JUndefined false)).
Proof.
  split; [reflexivity |].
  exact (proj1 (proj2 (proj2 (proj2
    (identifiers_sequential "1HeLLo" defaults
       [CallCmd "siteInfo" JUndefined None; CallCmdp "fileGet" (JObj []);
        CallResponse (Some 9) (JStr "ok"); PageFetched "key"; Opened;
        Incoming (mkMessage (Some 7) CMD_PING JUndefined None JUndefined false);
        CallProxy "serverInfo" []]))))
    4%nat _ eq_refl).
Defined.

(** ** Sending while the socket is not open *)

Lemma outgoing_call e : is_call e = true → ∃ m, outgoing e = Some m.
Proof. destruct e; simpl; try done; by eexists. Qed.

Lemma outgoing_literal e m :
  outgoing e = Some m → id m = None ∧ processed m = false.
Proof.
  destruct e; simpl; try done; try by intros [= <-].
  destruct (String.eqb _ _); [| done]. by intros [= <-].
Qed.








(** ** Responses and their callbacks *)

Lemma onRequest_unmatched message r :
  cmd message = CMD_RESPONSE →
  (∀ k, to message = Some k → waitingCallbacks (this r) !! k = None) →
  _onRequest message r = (r, []).
Proof.
  intros Hc Hnone. unfold _onRequest. rewrite Hc. simpl.
  destruct (to message) as [k |]; [| done]. by rewrite (Hnone k).
Qed.

Lemma onRequest_matched message r k cb :
  cmd message = CMD_RESPONSE → to message = Some k →
  waitingCallbacks (this r) !! k = Some cb →
  throws cb (result message) = false →
  _onRequest message r
  = (set_this (set_waitingCallbacks (delete k (waitingCallbacks (this r))) (this r))
              (invoke cb (result message) r),
     [Call k cb (result message)]).
Proof.
  intros Hc Hto Hcb Hth. unfold _onRequest. rewrite Hc, Hto, Hcb, Hth. simpl.
  by destruct (invoke_fields cb (result message) r) as (-> & _).
Qed.

Lemma onRequest_thrown message r k f :
  cmd message = CMD_RESPONSE → to message = Some k →
  waitingCallbacks (this r) !! k = Some (Handler f) →
  raises f (result message) = true →
  _onRequest message r = (r, [Call k (Handler f) (result message)]).
Proof.
  intros Hc Hto Hcb Hth. unfold _onRequest. rewrite Hc, Hto, Hcb. simpl.
  by rewrite Hth.
Qed.

(** An identifier given out whose callback does not wait has no callback
    called from then on. *)
Lemma handle_absent e r k :
  wf r → waitingCallbacks (this r) !! k = None → k < nextMessageId (this r) →
  waitingCallbacks (this (handle e r).1) !! k = None
  ∧ k < nextMessageId (this (handle e r).1)
  ∧ k ∉ called (handle e r).2.
Proof.
  intros Hwf Hnone Hlt. destruct (outgoing e) as [m |] eqn:Hout.
  - destruct (handle_outgoing e r m Hout) as (cb & r0 & -> & Ht & Ho).
    destruct (post_fields m cb r0) as (En & _ & _ & Ec & _).
    rewrite En, Ec, post_called, Ht. split; [| split; [lia | apply not_elem_of_nil]].
    destruct cb; [| done]. rewrite decide_False; [done | lia].
  - destruct e; try discriminate Hout.
    + cbn [handle]. simpl in Hout.
      destruct (onRequest_cases message r)
        as [(k' & cb & _ & _ & Hcb & _ & ->) | [(_ & _ & ->) | [(Hp & _)
           | [(_ & _ & ->) | (k' & f & _ & _ & Hcb & _ & ->)]]]]; simpl.
      * destruct (invoke_fields cb (result message) r) as (-> & _).
        split; [apply lookup_delete_None; by right |]. split; [done |].
        intros ->%list_elem_of_singleton. congruence.
      * split; [done |]. split; [done | apply not_elem_of_nil].
      * by rewrite Hp in Hout.
      * split; [done |]. split; [done | apply not_elem_of_nil].
      * split; [done |]. split; [done |].
        intros ->%list_elem_of_singleton. congruence.
    + cbn [handle].
      destruct (open_spec r (wf_queue_nodup r Hwf)) as (store & -> & _). simpl.
      split; [done |]. split; [done |].
      rewrite called_app, called_sends. apply not_elem_of_nil.
    + simpl. split; [done |]. split; [done | apply not_elem_of_nil].
    + pose proof (handle_core Closed r) as (Hc & _ & Hk).
      unfold core in Hc. simpl in Hc, Hk. injection Hc as Hn _ _ Hcb _.
      cbn [handle]. rewrite Hn, Hcb, Hk.
      split; [done |]. split; [done | apply not_elem_of_nil].
    + pose proof (handle_core TimerFired r) as (Hc & _ & Hk).
      unfold core in Hc. simpl in Hc, Hk. injection Hc as Hn _ _ Hcb _.
      cbn [handle]. rewrite Hn, Hcb, Hk.
      split; [done |]. split; [done | apply not_elem_of_nil].
    + pose proof (handle_core (PageFetched key) r) as (Hc & _ & Hk).
      unfold core in Hc. simpl in Hc, Hk. injection Hc as Hn _ _ Hcb _.
      cbn [handle]. rewrite Hn, Hcb, Hk.
      split; [done |]. split; [done | apply not_elem_of_nil].
Qed.

Lemma run_absent es r k :
  wf r → waitingCallbacks (this r) !! k = None → k < nextMessageId (this r) →
  k ∉ called (run es r).2.
Proof.
  revert r. induction es as [| e es IH]; intros r Hwf Hnone Hlt; simpl.
  - apply not_elem_of_nil.
  - destruct (handle_absent e r k Hwf Hnone Hlt) as (Hn1 & Hl1 & Hc1).
    assert (Hwf1 : wf (handle e r).1)
      by (apply (handle_wf e r _ (handle e r).2 Hwf); by destruct (handle e r)).
    specialize (IH (handle e r).1 Hwf1 Hn1 Hl1).
    destruct (handle e r) as [r1 o1]. simpl in *.
    destruct (run es r1) as [r2 o2]. simpl in *.
    rewrite called_app. intros [? | ?]%elem_of_app; auto.
Qed.

Lemma returned_all out :
  forallb (λ e, negb (raised e)) out = true → returned out = called out.
Proof.
  unfold returned, called. induction out as [| e out IH]; [done |].
  cbn [forallb omap list_omap]. intros [He Ho]%andb_prop.
  unfold completion at 1. apply negb_true_iff in He. rewrite He.
  fold (omap completion out). fold (omap invocation out). by rewrite (IH Ho).
Qed.

(** C3, as the code has it.  At most one call that returns per
    identifier.  In the trace of any run no identifier has two calls of
    its callback that returned; a callback that was called and returned
    waits no longer and is never called again; so in a run in which no
    call of a callback throws no identifier has its callback called
    twice.  A response whose [to] has a waiting callback calls it once
    with the result of the frame and, the callback having returned,
    deletes the entry, leaving queue, store and counter alone, after which
    a further response for that identifier is dropped.  A response whose
    [to] has no waiting callback (never registered, already answered, or
    absent) changes nothing and calls nothing; identifiers not yet given
    out have none. *)
Theorem callback_at_most_once address options es :
  let r := (session address options es).1 in
  let out := (session address options es).2 in
  NoDup (returned out)
  ∧ (∀ k, k ∈ returned out →
          waitingCallbacks (this r) !! k = None
          ∧ ∀ more, k ∉ called (run more r).2)
  ∧ (forallb (λ e, negb (raised e)) out = true →
     NoDup (called out)
     ∧ ∀ k, k ∈ called out → waitingCallbacks (this r) !! k = None)
  ∧ (∀ k, ¬ (1 ≤ k < nextMessageId (this r)) → waitingCallbacks (this r) !! k = None)
  ∧ (∀ message k cb,
       cmd message = CMD_RESPONSE → to message = Some k →
       waitingCallbacks (this r) !! k = Some cb →
       throws cb (result message) = false →
       let r' := (_onRequest message r).1 in
       (_onRequest message r).2 = [Call k cb (result message)]
       ∧ waitingCallbacks (this r') = delete k (waitingCallbacks (this r))
       ∧ objects r' = objects r
       ∧ waitingMessages (this r') = waitingMessages (this r)
       ∧ nextMessageId (this r') = nextMessageId (this r)
       ∧ ∀ again, cmd again = CMD_RESPONSE → to again = Some k →
                  _onRequest again r' = (r', []))
  ∧ (∀ message,
       cmd message = CMD_RESPONSE →
       (∀ k, to message = Some k → waitingCallbacks (this r) !! k = None) →
       _onRequest message r = (r, [])).
Proof.
  intros r out.
  destruct (session_wf address options es r out) as [Hwf Htr];
    [by subst r out; destruct (session _ _ _) |].
  split; [apply Htr |]. split.
  { intros k Hk. destruct (traced_called r out Htr k Hk) as [Hnone Hlt].
    split; [done |]. intros more. by apply run_absent. }
  split.
  { intros Hall. rewrite <- (returned_all out Hall).
    split; [apply Htr | intros k Hk; by apply Htr]. }
  split.
  { intros k Hk. destruct (waitingCallbacks (this r) !! k) as [cb |] eqn:Hcb; [| done].
    apply (wf_keys r Hwf) in Hcb. lia. }
  split; [| intros message; apply onRequest_unmatched].
  intros message k cb Hc Hto Hcb Hth.
  rewrite (onRequest_matched message r k cb Hc Hto Hcb Hth). simpl.
  destruct (invoke_fields cb (result message) r) as (_ & Eo & _).
  repeat split; try done.
  intros again Hc' Hto'. apply onRequest_unmatched; [done |].
  intros k' Hk'. simpl. rewrite Hto' in Hk'. injection Hk' as <-.
  apply lookup_delete_eq.
Qed.

(** A command with a callback that returns is answered three times. *)
Lemma callback_at_most_once_witness :
  let answer := mkMessage None CMD_RESPONSE JUndefined (Some 1) (JStr "ok") false in
  called (session "1HeLLo" defaults
            [CallCmd "siteInfo" JUndefined (Some (returning 0)); PageFetched "key";
             Opened; Incoming answer; Incoming answer; Incoming answer]).2 = [1]
  ∧ NoDup (called (session "1HeLLo" defaults
                     [CallCmd "siteInfo" JUndefined (Some (returning 0));
                      PageFetched "key"; Opened; Incoming answer; Incoming answer;
                      Incoming answer]).2)
  ∧ _onRequest answer
      (session "1HeLLo" defaults
         [CallCmd "siteInfo" JUndefined (Some (returning 0)); PageFetched "key";
          Opened; Incoming answer]).1
    = ((session "1HeLLo" defaults
         [CallCmd "siteInfo" JUndefined (Some (returning 0)); PageFetched "key";
          Opened; Incoming answer]).1, []).
Proof.
  split; [reflexivity |]. split.
  - exact (proj1 (proj1 (proj2 (proj2
      (callback_at_most_once "1HeLLo" defaults
         [CallCmd "siteInfo" JUndefined (Some (returning 0)); PageFetched "key";
          Opened;
          Incoming (mkMessage None CMD_RESPONSE JUndefined (Some 1) (JStr "ok") false);
          Incoming (mkMessage None CMD_RESPONSE JUndefined (Some 1) (JStr "ok") false);
          Incoming (mkMessage None CMD_RESPONSE JUndefined (Some 1) (JStr "ok") false)])))
      eq_refl)).
  - apply (proj2 (proj2 (proj2 (proj2 (proj2
      (callback_at_most_once "1HeLLo" defaults
         [CallCmd "siteInfo" JUndefined (Some (returning 0)); PageFetched "key";
          Opened;
          Incoming (mkMessage None CMD_RESPONSE JUndefined (Some 1) (JStr "ok")
                      false)])))))).
    + reflexivity.
    + intros k [= <-]. reflexivity.
Defined.

(** C3 as stated fails: a callback that throws leaves [_onRequest] at line
    167, before the [delete] of line 168, so its entry stays and the next
    response for the identifier calls it again. *)
Lemma callback_called_twice_counterexample :
  let thrower := mkFunction 0 (λ _, true) in
  let answer := mkMessage None CMD_RESPONSE JUndefined (Some 1) (JStr "ok") false in
  let after := session "1HeLLo" defaults
                 [CallCmd "siteInfo" JUndefined (Some thrower); PageFetched "key";
                  Opened; Incoming answer; Incoming answer] in
  called after.2 = [1; 1]
  ∧ ¬ NoDup (called after.2)
  ∧ waitingCallbacks (this after.1) !! 1 = Some (Handler thrower).
Proof.
  split; [reflexivity |]. split; [| reflexivity].
  intros Hnd. apply NoDup_cons in Hnd as [Hnin _].
  apply Hnin, list_elem_of_here.
Qed.

(** ** Promises *)

(** The callback an event registers, with the promise it creates. *)
Lemma handle_outgoing_callback e r m :
  outgoing e = Some m →
  (∃ cb, handle e r = post m cb r ∧ ∀ p, cb ≠ Some (Settle p))
  ∨ handle e r = post m (Some (Settle (length (promises r))))
                   (set_promises (promises r ++ [Pending]) r).
Proof.
  destruct e; simpl; try done.
  - intros [= <-]. left. exists (Handler <$> cb). rewrite cmd_post.
    split; [done |]. by destruct cb.
  - intros [= <-]. right. rewrite cmdp_post. by destruct (post _ _ _).
  - intros [= <-]. right. rewrite proxy_as_cmdp, cmdp_post. by destruct (post _ _ _).
  - intros [= <-]. left. exists None. by rewrite response_post.
  - destruct (String.eqb_spec (cmd message) CMD_PING) as [Hp | Hp]; [| done].
    intros [= <-]. left. exists None. rewrite <- response_post.
    unfold _onRequest. by rewrite Hp.
Qed.

(** An event that sends nothing and is no response with a waiting callback
    leaves table and promises alone. *)
Lemma handle_quiet e r :
  wf r → outgoing e = None →
  (∀ message k, e = Incoming message → cmd message = CMD_RESPONSE →
                to message = Some k → waitingCallbacks (this r) !! k = None) →
  waitingCallbacks (this (handle e r).1) = waitingCallbacks (this r)
  ∧ promises (handle e r).1 = promises r.
Proof.
  intros Hwf Hout Hun. destruct e; simpl in *; try done.
  - destruct (String.eqb_spec (cmd message) CMD_PING) as [Hp | Hp]; [done |].
    destruct (onRequest_cases message r)
      as [(k & cb & Hc & Hto & Hcb & Hth & _) | [(_ & _ & ->) | [(Hp' & _) | [(_ & _ & ->)
         | (kt & ft & _ & _ & _ & _ & ->)]]]];
      try done.
    by rewrite (Hun message k eq_refl Hc Hto) in Hcb.
  - by destruct (open_spec r (wf_queue_nodup r Hwf)) as (store & -> & _).
  - by pose proof (handle_core Closed r) as ([= _ _ _ -> ->] & _).
  - by pose proof (handle_core TimerFired r) as ([= _ _ _ -> ->] & _).
  - by pose proof (handle_core (PageFetched key) r) as ([= _ _ _ -> ->] & _).
Qed.

(** A callback keeps waiting until a response for its identifier comes. *)
Lemma handle_waiting e r k cb :
  wf r → answers k e = false →
  waitingCallbacks (this r) !! k = Some cb →
  waitingCallbacks (this (handle e r).1) !! k = Some cb.
Proof.
  intros Hwf Hans Hcb.
  pose proof (wf_keys r Hwf k cb Hcb) as Hlt.
  destruct (outgoing e) as [m |] eqn:Hout.
  - destruct (handle_outgoing e r m Hout) as (cb' & r0 & -> & Ht & _).
    destruct (post_fields m cb' r0) as (_ & _ & _ & Ec & _). rewrite Ec, Ht.
    destruct cb'; [| done]. case_decide; [lia | done].
  - destruct e; try (by rewrite (proj1 (handle_quiet _ r Hwf Hout ltac:(done)))).
    simpl in *.
    destruct (String.eqb_spec (cmd message) CMD_PING) as [Hp | Hp]; [done |].
    destruct (onRequest_cases message r)
      as [(k' & cb' & Hc & Hto & Hcb' & Hth & ->) | [(_ & _ & ->) | [(Hp' & _) | [(_ & _ & ->)
         | (kt & ft & _ & _ & _ & _ & ->)]]]];
      try done.
    simpl. destruct (invoke_fields cb' (result message) r) as (-> & _).
    rewrite lookup_delete_ne; [done |]. intros ->.
    rewrite Hc, Hto in Hans. simpl in Hans.
    by rewrite bool_decide_eq_true_2 in Hans.
Qed.

Lemma run_waiting es r k cb :
  wf r → forallb (λ e, negb (answers k e)) es = true →
  waitingCallbacks (this r) !! k = Some cb →
  waitingCallbacks (this (run es r).1) !! k = Some cb.
Proof.
  revert r. induction es as [| e es IH]; intros r Hwf Hall Hcb; [done |].
  simpl in *. apply andb_prop in Hall as [He%negb_true_iff Hall].
  pose proof (handle_waiting e r k cb Hwf He Hcb) as Hcb1.
  pose proof (handle_wf e r (handle e r).1 (handle e r).2 Hwf) as Hwf1.
  destruct (handle e r) as [r1 o1]. simpl in *.
  specialize (IH r1 (Hwf1 eq_refl) Hall Hcb1).
  by destruct (run es r1).
Qed.

Lemma handle_retired e r p :
  wf r → retired p r →
  retired p (handle e r).1 ∧ promises (handle e r).1 !! p = promises r !! p.
Proof.
  intros Hwf [Hlt Hno]. unfold retired.
  destruct (outgoing e) as [m |] eqn:Hout.
  - destruct (handle_outgoing_callback e r m Hout) as [(cb & -> & Hcb) | ->].
    + destruct (post_fields m cb r) as (_ & _ & _ & Ec & -> & _).
      repeat split; [done |]. intros k. rewrite Ec.
      destruct cb as [f |]; [| done]. case_decide; [| done].
      intros [= ->]. by eapply Hcb.
    + destruct (post_fields m (Some (Settle (length (promises r))))
                  (set_promises (promises r ++ [Pending]) r))
        as (_ & _ & _ & Ec & -> & _).
      cbn [promises set_promises].
      rewrite length_app, lookup_app_l by done. repeat split; [lia |].
      intros k. rewrite Ec. case_decide; [| apply Hno]. intros [= <-]. lia.
  - destruct e; try (destruct (handle_quiet _ r Hwf Hout ltac:(done)) as [-> ->]; done).
    simpl in *.
    destruct (String.eqb_spec (cmd message) CMD_PING) as [Hp | Hp]; [done |].
    destruct (onRequest_cases message r)
      as [(k' & cb' & Hc & Hto & Hcb' & Hth & ->) | [(_ & _ & ->) | [(Hp' & _) | [(_ & _ & ->)
         | (kt & ft & _ & _ & _ & _ & ->)]]]];
      try done.
    simpl. destruct (invoke_fields cb' (result message) r) as (-> & _ & El & Ep).
    rewrite El. repeat split; [done | |].
    + intros k [_ Hk]%lookup_delete_Some. by eapply Hno.
    + apply Ep. intros ->. by eapply Hno.
Qed.

Lemma run_retired es r p :
  wf r → retired p r → promises (run es r).1 !! p = promises r !! p.
Proof.
  revert r. induction es as [| e es IH]; intros r Hwf Hret; [done |].
  simpl. destruct (handle_retired e r p Hwf Hret) as [Hret1 Hp1].
  pose proof (handle_wf e r (handle e r).1 (handle e r).2 Hwf) as Hwf1.
  destruct (handle e r) as [r1 o1]. simpl in *.
  specialize (IH r1 (Hwf1 eq_refl) Hret1).
  destruct (run es r1). simpl in *. congruence.
Qed.

Lemma invoke_settle p res r :
  promises r !! p = Some Pending →
  promises (invoke (Settle p) res r) !! p = Some (settled res).
Proof.
  intros Hp. unfold invoke, settled. rewrite Hp.
  pose proof (lookup_lt_Some _ _ _ Hp) as Hlt.
  destruct (truthy res && truthy (get res "error")); simpl;
    by rewrite list_lookup_insert_eq.
Qed.

(** C5, as the code has it.  A command sent through [cmdp] gets the next
    identifier [k] and a pending promise [p].  As long as no response for
    [k] arrives the promise stays pending.  The first response for [k],
    with result [R], calls the callback once and settles the promise:
    rejected with [R.error] if [R] is truthy and [R.error] is truthy,
    otherwise fulfilled with [R] itself.  Nothing that happens later
    changes the promise or calls the callback again. *)
Theorem promise_settled_by_response address options es name args between frame :
  let r := (session address options es).1 in
  let k := nextMessageId (this r) in
  let p := (cmdp name args r).1.1 in
  let r1 := (cmdp name args r).1.2 in
  let r2 := (run between r1).1 in
  let r3 := (_onRequest frame r2).1 in
  forallb (λ e, negb (answers k e)) between = true →
  cmd frame = CMD_RESPONSE → to frame = Some k →
  objects r1 !! length (objects r)
  = Some (mkMessage (Some k) name (or_empty args) None JUndefined false)
  ∧ promises r2 !! p = Some Pending
  ∧ (_onRequest frame r2).2 = [Call k (Settle p) (result frame)]
  ∧ promises r3 !! p = Some (settled (result frame))
  ∧ (∀ after, promises (run after r3).1 !! p = promises r3 !! p
              ∧ k ∉ called (run after r3).2).
Proof.
  intros r k p r1 r2 r3 Hquiet Hcmd Hto.
  destruct (session_wf address options es r (session address options es).2)
    as [Hwf Htr]; [by subst r; destruct (session _ _ _) |].
  pose proof (cmdp_wf name args r Hwf) as Hwf1.
  pose proof (cmdp_traced name args r _ Hwf Htr) as Htr1.
  assert (Hk1 : waitingCallbacks (this r1) !! k = Some (Settle p)
                ∧ objects r1 !! length (objects r)
                  = Some (mkMessage (Some k) name (or_empty args) None JUndefined false)).
  { subst r1 p. rewrite cmdp_post. cbn [fst snd].
    destruct (post_fields (mkMessage None name (or_empty args) None JUndefined false)
                (Some (Settle (length (promises r))))
                (set_promises (promises r ++ [Pending]) r)) as (_ & -> & _ & Ec & _).
    rewrite Ec. split.
    - by rewrite decide_True.
    - simpl. by rewrite lookup_app_r, Nat.sub_diag. }
  destruct Hk1 as [Hk1 Hobj]. fold r1 in Hwf1, Htr1.
  assert (Hwf2 : wf r2).
  { apply (run_wf between r1 r2 (run between r1).2 Hwf1). subst r2.
    by destruct (run _ _). }
  assert (Htr2 : traced r2 (((session address options es).2 ++ (cmdp name args r).2)
                            ++ (run between r1).2)).
  { apply (run_traced between r1 r2 _ _ Hwf1 Htr1). subst r2. by destruct (run _ _). }
  pose proof (run_waiting between r1 k _ Hwf1 Hquiet Hk1) as Hk2. fold r2 in Hk2.
  destruct (wf_settle r2 Hwf2 k p Hk2) as [Hp2 Hu2].
  pose proof (onRequest_matched frame r2 k _ Hcmd Hto Hk2 eq_refl) as Hm.
  assert (Hwf3 : wf r3).
  { apply (onRequest_wf frame r2 r3 (_onRequest frame r2).2 Hwf2). subst r3.
    by destruct (_onRequest _ _). }
  assert (Htr3 : traced r3 ((((session address options es).2 ++ (cmdp name args r).2)
                             ++ (run between r1).2) ++ (_onRequest frame r2).2)).
  { apply (onRequest_traced frame r2 r3 _ _ Hwf2 Htr2). subst r3.
    by destruct (_onRequest _ _). }
  assert (Hp3 : promises r3 !! p = Some (settled (result frame))).
  { subst r3. rewrite Hm. simpl. by apply invoke_settle. }
  assert (Hret : retired p r3).
  { split.
    - by eapply lookup_lt_Some.
    - subst r3. rewrite Hm. simpl. intros k' [Hne Hk']%lookup_delete_Some.
      apply Hne. symmetry. by apply Hu2. }
  split; [done |]. split; [done |]. split; [by rewrite Hm |]. split; [done |].
  intros after. split; [by apply run_retired |].
  apply run_absent; [done | |].
  - subst r3. rewrite Hm. simpl. apply lookup_delete_eq.
  - subst r3. rewrite Hm. simpl. apply (wf_keys r2 Hwf2) in Hk2. lia.
Qed.

(** A command answered with an error, then answered again. *)
Lemma promise_settled_by_response_witness :
  let failure := mkMessage None CMD_RESPONSE JUndefined (Some 1)
                   (JObj [("error", JStr "Forbidden")]) false in
  let late := mkMessage None CMD_RESPONSE JUndefined (Some 1) (JStr "ok") false in
  let r := (session "1HeLLo" defaults []).1 in
  let r2 := (run [PageFetched "key"; Opened] (cmdp "siteInfo" JUndefined r).1.2).1 in
  promises (_onRequest failure r2).1 !! 0%nat = Some (Rejected (JStr "Forbidden"))
  ∧ promises (run [Incoming late] (_onRequest failure r2).1).1 !! 0%nat
    = Some (Rejected (JStr "Forbidden")).
Proof.
  pose proof (promise_settled_by_response "1HeLLo" defaults [] "siteInfo" JUndefined
    [PageFetched "key"; Opened]
    (mkMessage None CMD_RESPONSE JUndefined (Some 1)
       (JObj [("error", JStr "Forbidden")]) false)
    eq_refl eq_refl eq_refl) as (_ & _ & _ & Hp & Hafter).
  split; [exact Hp |].
  destruct (Hafter [Incoming (mkMessage None CMD_RESPONSE JUndefined (Some 1)
                                (JStr "ok") false)]) as [Hsame _].
  exact (eq_trans Hsame Hp).
Defined.

(** C5 as stated fails: the result [{error: ""}] is truthy and carries an
    error field, and the promise is fulfilled with the result, not
    rejected with the field. *)
Lemma promise_error_field_counterexample :
  let R := JObj [("error", JStr "")] in
  let r := (session "1HeLLo" defaults
              [CallCmdp "siteInfo" JUndefined; PageFetched "key"; Opened;
               Incoming (mkMessage None CMD_RESPONSE JUndefined (Some 1) R false)]).1 in
  truthy R = true ∧ carries_error R = true
  ∧ promises r !! 0%nat = Some (Fulfilled R)
  ∧ promises r !! 0%nat ≠ Some (settled_if_carried R).
Proof. repeat split; try reflexivity. discriminate. Qed.

(** ** Pings *)

(** C4.  A ping is answered with a pong and nothing else is.  For a frame
    whose [cmd] is ["ping"] the handler does what [response] does with the
    identifier of the frame and ["pong"]: one new message
    [{id, cmd: "response", to: message.id, result: "pong"}] with the next
    identifier, sent at once if the socket is open and queued otherwise,
    and no call of [onRequest] or of a callback.  For a frame with any
    other [cmd] the handler creates no message, queues nothing and sends
    nothing. *)
Theorem ping_answered_with_pong message r :
  (cmd message = CMD_PING →
   let pong := mkMessage (Some (nextMessageId (this r))) CMD_RESPONSE JUndefined
                 (id message) (JStr CMD_PONG) false in
   _onRequest message r = response (id message) (JStr CMD_PONG) r
   ∧ objects (_onRequest message r).1 = objects r ++ [pong]
   ∧ (_onRequest message r).2
     = (if websocketConnected (this r)
        then [Send (websocket (this r)) (length (objects r)) pong] else [])
   ∧ waitingMessages (this (_onRequest message r).1)
     = (if websocketConnected (this r) then waitingMessages (this r)
        else waitingMessages (this r) ++ [length (objects r)])
   ∧ nextMessageId (this (_onRequest message r).1) = nextMessageId (this r) + 1
   ∧ waitingCallbacks (this (_onRequest message r).1) = waitingCallbacks (this r)
   ∧ promises (_onRequest message r).1 = promises r)
  ∧ (cmd message ≠ CMD_PING →
     objects (_onRequest message r).1 = objects r
     ∧ waitingMessages (this (_onRequest message r).1) = waitingMessages (this r)
     ∧ nextMessageId (this (_onRequest message r).1) = nextMessageId (this r)
     ∧ sent (_onRequest message r).2 = []).
Proof.
  split.
  - intros Hp pong.
    assert (E : _onRequest message r = response (id message) (JStr CMD_PONG) r).
    { unfold _onRequest. by rewrite Hp. }
    rewrite E, response_post. unfold post. simpl.
    by destruct (websocketConnected (this r)).
  - intros Hp.
    destruct (onRequest_cases message r)
      as [(k & cb & _ & _ & _ & Hth & ->) | [(_ & _ & ->) | [(Hp' & _) | [(_ & _ & ->)
         | (kt & ft & _ & _ & _ & _ & ->)]]]];
      try done.
    simpl. by destruct (invoke_fields cb (result message) r) as (-> & -> & _).
Qed.

(** The ping of the specification, on an open socket and on a closed one,
    and a frame that is no ping. *)
Lemma ping_answered_with_pong_witness :
  let ping := mkMessage (Some 7) CMD_PING JUndefined None JUndefined false in
  let pong := mkMessage (Some 1) CMD_RESPONSE JUndefined (Some 7) (JStr CMD_PONG) false in
  let opened := (session "1HeLLo" defaults [PageFetched "key"; Opened]).1 in
  let closed := (session "1HeLLo" defaults [PageFetched "key"]).1 in
  (_onRequest ping opened).2 = [Send (Some 0%nat) 0 pong]
  ∧ (_onRequest ping closed).2 = []
  ∧ objects (_onRequest ping closed).1 = [pong]
  ∧ waitingMessages (this (_onRequest ping closed).1) = [0%nat]
  ∧ sent (_onRequest (mkMessage (Some 7) "pong" JUndefined None JUndefined false)
            opened).2 = [].
Proof.
  pose proof (proj1 (ping_answered_with_pong
    (mkMessage (Some 7) CMD_PING JUndefined None JUndefined false)
    (session "1HeLLo" defaults [PageFetched "key"; Opened]).1) eq_refl)
    as (_ & _ & Ho & _).
  pose proof (proj1 (ping_answered_with_pong
    (mkMessage (Some 7) CMD_PING JUndefined None JUndefined false)
    (session "1HeLLo" defaults [PageFetched "key"]).1) eq_refl)
    as (_ & Hobj & Hc & Hq & _).
  pose proof (proj2 (ping_answered_with_pong
    (mkMessage (Some 7) "pong" JUndefined None JUndefined false)
    (session "1HeLLo" defaults [PageFetched "key"; Opened]).1)) as Hn.
  split; [exact Ho |]. split; [exact Hc |]. split; [exact Hobj |].
  split; [exact Hq |]. apply Hn. discriminate.
Defined.

(** ** Reconnecting *)

Lemma post_loop m cb r :
  reconnect (this (post m cb r).1) = reconnect (this r)
  ∧ nextAttemptId (this (post m cb r).1) = nextAttemptId (this r)
  ∧ timers (post m cb r).1 = timers r
  ∧ fetching (post m cb r).1 = fetching r
  ∧ scheduled (post m cb r).2 = 0%nat
  ∧ connections (post m cb r).2 = 0%nat.
Proof.
  unfold post. by destruct cb, (websocketConnected (this r)).
Qed.

(** What an event does to the policy, the attempt counter, the timers and
    the pending fetch, and how many reconnections it schedules and how
    many sockets it creates. *)
Lemma handle_loop e r :
  reconnect (this (handle e r).1) = reconnect (this r)
  ∧ nextAttemptId (this (handle e r).1) = nextAttemptId (this r)
  ∧ match e with
    | Closed =>
      fetching (handle e r).1 = fetching r
      ∧ connections (handle e r).2 = 0%nat
      ∧ (if (attempts (reconnect (this r)) =? 0)
            || (negb (attempts (reconnect (this r)) =? -1)
                && (nextAttemptId (this r) >? attempts (reconnect (this r))))
         then timers (handle e r).1 = timers r ∧ scheduled (handle e r).2 = 0%nat
         else timers (handle e r).1 = S (timers r) ∧ scheduled (handle e r).2 = 1%nat)
    | TimerFired =>
      fetching (handle e r).1 = fetching r
      ∧ scheduled (handle e r).2 = 0%nat
      ∧ timers (handle e r).1 = Nat.pred (timers r)
      ∧ connections (handle e r).2 = (if timers r is O then 0 else 1)%nat
    | PageFetched _ =>
      timers (handle e r).1 = timers r
      ∧ scheduled (handle e r).2 = 0%nat
      ∧ fetching (handle e r).1 = false
      ∧ connections (handle e r).2 = (if fetching r then 1 else 0)%nat
    | _ =>
      timers (handle e r).1 = timers r
      ∧ fetching (handle e r).1 = fetching r
      ∧ scheduled (handle e r).2 = 0%nat
      ∧ connections (handle e r).2 = 0%nat
    end.
Proof.
  destruct (outgoing e) as [m |] eqn:Hout.
  - destruct (handle_outgoing_callback e r m Hout) as [(cb & E & _) | E];
      rewrite E; clear E.
    + destruct (post_loop m cb r) as (? & ? & ? & ? & ? & ?).
      destruct e; try done.
    + destruct (post_loop m (Some (Settle (length (promises r))))
                  (set_promises (promises r ++ [Pending]) r)) as (? & ? & ? & ? & ? & ?).
      destruct e; try done.
  - destruct e; simpl in *; try done.
    + destruct (String.eqb_spec (cmd message) CMD_PING) as [Hp | Hp]; [done |].
      destruct (onRequest_cases message r)
        as [(k & cb & _ & _ & _ & Hth & ->) | [(_ & _ & ->) | [(Hp' & _) | [(_ & _ & ->)
           | (kt & ft & _ & _ & _ & _ & ->)]]]];
        try done.
      simpl. destruct (invoke_fields cb (result message) r) as (-> & _).
      unfold invoke. destruct cb as [f | p]; [done |].
      destruct (promises r !! p); [| done]. by destruct (_ && _).
    + unfold _onOpenWebsocket.
      pose proof (flush_this (waitingMessages (this r))
                    (set_this (set_websocketConnected true (this r)) r))
        as (Ht & _ & _ & Hti & Hf & Hs & Hc).
      simpl in *. destruct (flush _ _) as [r2 o2]. simpl in *.
      rewrite Ht, Hti, Hf, scheduled_app, connections_app, Hs, Hc. done.
    + unfold _onCloseWebsocket. simpl.
      destruct (attempts (reconnect (this r)) =? 0); [done |]. simpl.
      by destruct (_ && _).
    + unfold reconnect_timer. destruct (timers r) eqn:E; simpl; by rewrite ?E.
    + unfold _connect_resume. destruct (fetching r) eqn:E; simpl; by rewrite ?E.
Qed.

(** The policy and the attempt counter are set by the constructor and
    never written again. *)
Lemma run_policy es r :
  reconnect (this (run es r).1) = reconnect (this r)
  ∧ nextAttemptId (this (run es r).1) = nextAttemptId (this r).
Proof.
  revert r. induction es as [| e es IH]; intros r; [done |]. simpl.
  destruct (handle_loop e r) as (Hr & Hn & _).
  destruct (handle e r) as [r1 o1]. specialize (IH r1).
  destruct (run es r1) as [r2 o2]. simpl in *.
  destruct IH as [IHr IHn]. split; congruence.
Qed.

Lemma handle_disabled e r past :
  disabled r past → disabled (handle e r).1 (past ++ (handle e r).2).
Proof.
  intros [Hp Ht Hs Hc]. destruct (handle_loop e r) as (Hr & _ & He).
  assert (Hstop : (attempts (reconnect (this r)) =? 0)
                  || (negb (attempts (reconnect (this r)) =? -1)
                      && (nextAttemptId (this r) >? attempts (reconnect (this r))))
                  = true) by by rewrite Hp.
  split; rewrite ?scheduled_app, ?connections_app, ?Hr; [done | | |].
  - destruct e; try (destruct He as (-> & _); done).
    + rewrite Hstop in He. by destruct He as (_ & _ & -> & _).
    + destruct He as (_ & _ & -> & _). by rewrite Ht.
  - destruct e; try (destruct He as (_ & _ & -> & _); lia).
    + rewrite Hstop in He. destruct He as (_ & _ & _ & ->). lia.
    + destruct He as (_ & -> & _). lia.
    + destruct He as (_ & -> & _). lia.
  - destruct e; try (destruct He as (_ & -> & _ & ->); lia).
    + destruct He as (-> & -> & _). lia.
    + destruct He as (-> & _ & _ & ->). rewrite Ht. lia.
    + destruct He as (_ & _ & -> & ->). destruct (fetching r); lia.
Qed.

Lemma run_disabled es r past :
  disabled r past → disabled (run es r).1 (past ++ (run es r).2).
Proof.
  revert r past. induction es as [| e es IH]; intros r past Hd; simpl.
  - by rewrite app_nil_r.
  - apply handle_disabled with (e := e) in Hd.
    destruct (handle e r) as [r1 o1]. simpl in *.
    specialize (IH r1 _ Hd). destruct (run es r1) as [r2 o2]. simpl in *.
    by rewrite app_assoc.
Qed.

Lemma handle_unlimited e es r past :
  unlimited es r past →
  unlimited (es ++ [e]) (handle e r).1 (past ++ (handle e r).2).
Proof.
  intros [Hp Hn Hs Hc]. destruct (handle_loop e r) as (Hr & Hn' & He).
  assert (Hgo : (attempts (reconnect (this r)) =? 0)
                || (negb (attempts (reconnect (this r)) =? -1)
                    && (nextAttemptId (this r) >? attempts (reconnect (this r))))
                = false).
  { rewrite Hn. apply orb_false_iff. split; [lia |].
    apply andb_false_iff. right. lia. }
  split; unfold closures in *;
    rewrite ?scheduled_app, ?connections_app, ?Hr, ?Hn', ?List.filter_app,
      ?length_app; [done | done | |].
  - destruct e; try (destruct He as (_ & _ & -> & _); simpl; lia).
    + rewrite Hgo in He. destruct He as (_ & _ & _ & ->). simpl. lia.
    + destruct He as (_ & -> & _). simpl. lia.
    + destruct He as (_ & -> & _). simpl. lia.
  - destruct e; try (destruct He as (-> & -> & -> & ->); lia).
    + rewrite Hgo in He. destruct He as (-> & -> & -> & ->). lia.
    + destruct He as (-> & -> & -> & ->). destruct (timers r); simpl; lia.
Qed.

Lemma run_unlimited es done_ r past :
  unlimited done_ r past →
  unlimited (done_ ++ es) (run es r).1 (past ++ (run es r).2).
Proof.
  revert done_ r past. induction es as [| e es IH]; intros done_ r past Hu; simpl.
  - by rewrite !app_nil_r.
  - apply handle_unlimited with (e := e) in Hu.
    destruct (handle e r) as [r1 o1]. simpl in *.
    specialize (IH _ r1 _ Hu). destruct (run es r1) as [r2 o2]. simpl in *.
    by rewrite app_assoc, (cons_middle e), app_assoc.
Qed.

(** C2 on the code.  With [reconnect.attempts = N > 0] the attempt counter
    is still 1 after any run, every close of the socket schedules a
    reconnection, and every reconnection scheduled is pending or has
    created a socket: the number of attempts is the number of closes, not
    at most [N]. *)
Theorem reconnect_attempts_not_limited address options es :
  let r := (session address options es).1 in
  let out := (session address options es).2 in
  0 < attempts (options_reconnect options) →
  nextAttemptId (this r) = 1
  ∧ scheduled out = closures es
  ∧ (timers r + connections out + (if fetching r then 1 else 0)
     = closures es + 1)%nat.
Proof.
  intros r out Hp.
  assert (Hu : unlimited es r out).
  { subst r out. unfold session.
    assert (H0 : unlimited [] (new address options).1 (new address options).2)
      by (split; simpl; done).
    apply run_unlimited with (es := es) in H0.
    destruct (new address options) as [r0 o0]. simpl in *.
    by destruct (run es r0). }
  destruct Hu as [_ Hn Hs Hc]. rewrite Hs in Hc. done.
Qed.

(** A limit of one attempt and three closes: three reconnections are
    scheduled and, with the first connection, four sockets are created. *)
Lemma reconnect_attempts_not_limited_witness :
  let options := mkOptions (mkMultiuser None None) (mkInstance "127.0.0.1" 43110 false)
                   (mkShow false false) (mkReconnect 1 5000) in
  let es := [PageFetched "key"; Opened; Closed; TimerFired; Opened; Closed;
             TimerFired; Closed; TimerFired] in
  scheduled (session "1HeLLo" options es).2 = 3%nat
  ∧ connections (session "1HeLLo" options es).2 = 4%nat.
Proof.
  pose proof (reconnect_attempts_not_limited "1HeLLo"
    (mkOptions (mkMultiuser None None) (mkInstance "127.0.0.1" 43110 false)
       (mkShow false false) (mkReconnect 1 5000))
    [PageFetched "key"; Opened; Closed; TimerFired; Opened; Closed;
     TimerFired; Closed; TimerFired] eq_refl) as (_ & Hs & _).
  split; [exact Hs | reflexivity].
Defined.

(** ** The dynamic command surface *)

Lemma cmdp_issue name args r : cmdp name args r = issue name (or_empty args) r.
Proof. rewrite cmdp_post. unfold issue. by destruct (post _ _ _). Qed.

(** C8.  The function [proxy] hands out for a command name calls [cmdp]
    in every case and returns its promise.  Without arguments the command
    goes out with the parameters [{}]; with one argument that is an object
    (and not [null]) with that object as parameters; with two or more
    arguments with the array of the arguments.  A command issued this way
    creates one pending promise and one message with the next identifier,
    whose callback settles that promise. *)
Theorem proxy_shapes name r :
  (∀ arguments, proxy name arguments r = cmdp name (proxy_params arguments) r)
  ∧ proxy name [] r = issue name (JObj []) r
  ∧ (∀ o, is_object o = true → proxy name [o] r = issue name o r)
  ∧ (∀ a b rest, proxy name (a :: b :: rest) r = issue name (JArr (a :: b :: rest)) r)
  ∧ (∀ args, cmdp name args r = issue name (or_empty args) r)
  ∧ (∀ given,
       let message := mkMessage (Some (nextMessageId (this r))) name given None
                        JUndefined false in
       (issue name given r).1.1 = length (promises r)
       ∧ promises (issue name given r).1.2 = promises r ++ [Pending]
       ∧ objects (issue name given r).1.2 = objects r ++ [message]
       ∧ waitingCallbacks (this (issue name given r).1.2)
         = <[nextMessageId (this r) := Settle (length (promises r))]>
             (waitingCallbacks (this r))
       ∧ (issue name given r).2
         = (if websocketConnected (this r)
            then [Send (websocket (this r)) (length (objects r)) message] else [])
       ∧ waitingMessages (this (issue name given r).1.2)
         = (if websocketConnected (this r) then waitingMessages (this r)
            else waitingMessages (this r) ++ [length (objects r)])).
Proof.
  split; [intros; apply proxy_as_cmdp |].
  split; [by rewrite proxy_as_cmdp, cmdp_issue |].
  split.
  { intros o Ho. rewrite proxy_as_cmdp, cmdp_issue. unfold proxy_params. simpl.
    rewrite Ho. by destruct o. }
  split; [intros; by rewrite proxy_as_cmdp, cmdp_issue |].
  split; [intros; apply cmdp_issue |].
  intros given message. unfold issue, post. simpl.
  by destruct (websocketConnected (this r)).
Qed.

(** The three shapes of call on a client whose socket is not yet open. *)
Lemma proxy_shapes_witness :
  let r := (session "1HeLLo" defaults []).1 in
  params <$> objects (proxy "siteInfo" [] r).1.2 = [JObj []]
  ∧ proxy "fileGet" [JObj [("inner_path", JStr "content.json")]] r
    = issue "fileGet" (JObj [("inner_path", JStr "content.json")]) r
  ∧ params <$> objects (proxy "fileGet" [JStr "content.json"; JBool true] r).1.2
    = [JArr [JStr "content.json"; JBool true]].
Proof.
  split; [reflexivity |]. split; [| reflexivity].
  exact (proj1 (proj2 (proj2 (proxy_shapes "fileGet" (session "1HeLLo" defaults []).1)))
           (JObj [("inner_path", JStr "content.json")]) eq_refl).
Defined.

(** ** The constructor *)


Lemma new_configured address o :
  configured address o (new address o).1 (new address o).2.
Proof. by repeat split. Qed.

Lemma read_store_of o : read_options (store_of o) constructorOptions = Some o.
Proof. destruct o as [[a b] [c d e] [f g] [i j]]. destruct a, b; reflexivity. Qed.

Lemma merge_partial v o :
  mutate (store_of o) constructorOptions (partial v) = store_of (override v o).
Proof.
  destruct o as [[a b] [c d e] [f g] [i j]].
  destruct v as [va vb vc vd ve vf vg vi vj].
  destruct va, vb, vc, vd, ve, vf, vg, vi, vj; reflexivity.
Qed.

Lemma constructor_partial address v o :
  address ≠ "" →
  constructor (JStr address) (partial v) (store_of o)
  = (store_of (override v o),
     Constructed (new address (override v o)).1 (new address (override v o)).2).
Proof.
  intros Hne. unfold constructor, recursiveAssign.
  rewrite merge_partial, read_store_of.
  cbn [truthy]. destruct (String.eqb_spec address "") as [-> | _]; [done |].
  cbn [negb]. by destruct (new address (override v o)).
Qed.

Lemma constructor_empty second h merged :
  second ≠ "" → read_options h constructorOptions = Some merged →
  constructor (JStr second) [] h
  = (h, Constructed (new second merged).1 (new second merged).2).
Proof.
  intros Hne Hr. unfold constructor, recursiveAssign. simpl.
  destruct (String.eqb_spec second "") as [-> | _]; [done |]. simpl.
  rewrite Hr. by destruct (new second merged).
Qed.

(** C9.  The options object of the class is the target of the merge, so
    what one client overrides the next one finds as its defaults.  With
    that object holding any options [o] of the documented types (it starts
    with the documented defaults): a client constructed with overrides
    leaves the object holding [o] with the overrides applied, and a client
    constructed next with the empty options [{}] leaves the object as it
    found it and is set up with those merged options, not with [o] and not
    with the documented defaults: its master address and seed, [show],
    [reconnect], host, port and scheme are the merged ones, and it fetches
    its wrapper page from the merged host and port.  In general a client
    constructed with [{}] is set up with whatever the object holds. *)
Theorem defaults_shared_between_clients :
  (∀ first second v o,
     first ≠ "" → second ≠ "" →
     ∃ r1 out1 r2 out2,
       constructor (JStr first) (partial v) (store_of o)
       = (store_of (override v o), Constructed r1 out1)
       ∧ configured first (override v o) r1 out1
       ∧ constructor (JStr second) [] (store_of (override v o))
         = (store_of (override v o), Constructed r2 out2)
       ∧ new second (override v o) = (r2, out2)
       ∧ configured second (override v o) r2 out2)
  ∧ store_of defaults = loaded
  ∧ (∀ second h merged,
       second ≠ "" → read_options h constructorOptions = Some merged →
       ∃ r2 out2,
         constructor (JStr second) [] h = (h, Constructed r2 out2)
         ∧ configured second merged r2 out2).
Proof.
  split; [| split; [done |]].
  - intros first second v o Hne1 Hne2.
    exists (new first (override v o)).1, (new first (override v o)).2,
      (new second (override v o)).1, (new second (override v o)).2.
    split; [by apply constructor_partial |]. split; [apply new_configured |].
    split; [apply constructor_empty; [done | apply read_store_of] |].
    split; [by destruct (new second (override v o)) | apply new_configured].
  - intros second h merged Hne Hr.
    exists (new second merged).1, (new second merged).2.
    split; [by apply constructor_empty | apply new_configured].
Qed.

(** A first client that overrides the port and the reconnect limit, then
    a client constructed with no options: it has port 8080 and limit 0,
    not the documented 43110 and -1. *)
Lemma defaults_shared_between_clients_witness :
  let v := mkOverrides None None None (Some 8080) None None None (Some 0) None in
  let h1 := (constructor (JStr "1HeLLo") (partial v) loaded).1 in
  partial v = [("instance", JObj [("port", JNum 8080)]);
               ("reconnect", JObj [("attempts", JNum 0)])]
  ∧ ∃ r2 out2,
      constructor (JStr "1Other") [] h1 = (h1, Constructed r2 out2)
      ∧ port (this r2) = 8080
      ∧ attempts (reconnect (this r2)) = 0
      ∧ out2 = [Fetch "http://127.0.0.1:8080/1Other"]
      ∧ port (this r2) ≠ instance_port (instance defaults).
Proof.
  split; [reflexivity |].
  destruct (proj1 defaults_shared_between_clients "1HeLLo" "1Other"
    (mkOverrides None None None (Some 8080) None None None (Some 0) None) defaults
    ltac:(discriminate) ltac:(discriminate))
    as (r1 & out1 & r2 & out2 & _ & _ & Hc & _ & Hconf).
  destruct Hconf as (_ & _ & _ & Hrec & _ & _ & Hport & _ & Hout).
  exists r2, out2. split; [exact Hc |]. split; [exact Hport |].
  split; [by rewrite Hrec |]. split; [exact Hout |]. by rewrite Hport.
Defined.

(** C10.  A falsy site stops the constructor after the merge.  The call
    ends with the error of line 25; the only thing it has done is the
    merge into the options object of the class: no client state, no fetch
    of the wrapper page, no socket.  [undefined], [null] and the empty
    string are falsy. *)
Theorem constructor_requires_site :
  (∀ address options h,
     truthy address = false →
     constructor address options h
     = ((recursiveAssign h constructorOptions options).1,
        Thrown "Site address is not specified"))
  ∧ truthy JUndefined = false ∧ truthy JNull = false ∧ truthy (JStr "") = false.
Proof.
  split; [| done]. intros address options h Hf.
  unfold constructor, recursiveAssign. simpl. by rewrite Hf.
Qed.

(** [undefined], [null] and the empty string as site. *)
Lemma constructor_requires_site_witness :
  constructor JUndefined [] loaded = (loaded, Thrown "Site address is not specified")
  ∧ constructor JNull [("show", JObj [("log", JBool true)])] loaded
    = (mutate loaded constructorOptions [("show", JObj [("log", JBool true)])],
       Thrown "Site address is not specified")
  ∧ constructor (JStr "") [] loaded = (loaded, Thrown "Site address is not specified").
Proof.
  split; [| split].
  - exact (proj1 constructor_requires_site JUndefined [] loaded eq_refl).
  - exact (proj1 constructor_requires_site JNull
             [("show", JObj [("log", JBool true)])] loaded eq_refl).
  - exact (proj1 constructor_requires_site (JStr "") [] loaded eq_refl).
Defined.

(** * Further properties *)

(** ** What no handler writes *)

Lemma post_settings m cb r :
  settings (this (post m cb r).1) = settings (this r)
  ∧ wrapperKey (this (post m cb r).1) = wrapperKey (this r)
  ∧ timeouts (post m cb r).2 = []
  ∧ List.filter is_fetch (post m cb r).2 = []
  ∧ List.filter is_connection (post m cb r).2 = []
  ∧ (post m cb r).2 ≫= printed (this (post m cb r).1) = [].
Proof. unfold post. by destruct cb, (websocketConnected (this r)). Qed.

Lemma flush_quiet q r :
  timeouts (flush q r).2 = []
  ∧ List.filter is_fetch (flush q r).2 = []
  ∧ List.filter is_connection (flush q r).2 = []
  ∧ ∀ z, (flush q r).2 ≫= printed z = [].
Proof.
  revert r. induction q as [| a q IH]; intros r; [done |]. simpl.
  destruct (flush_one_cases a r) as [[_ ->] | (m & _ & _ & _ & ->)].
  - specialize (IH r). by destruct (flush q r).
  - specialize (IH (set_objects (<[a:=set_processed true m]> (objects r)) r)).
    by destruct (flush q _).
Qed.

Lemma handle_settings e r :
  settings (this (handle e r).1) = settings (this r)
  ∧ wrapperKey (this (handle e r).1)
    = match e with
      | PageFetched key => if fetching r then Some key else wrapperKey (this r)
      | _ => wrapperKey (this r)
      end
  ∧ timeouts (handle e r).2
    = match e with
      | Closed => if gives_up (this r) then [] else [delay (reconnect (this r))]
      | _ => []
      end
  ∧ List.filter is_fetch (handle e r).2 = [].
Proof.
  destruct (outgoing e) as [m |] eqn:Hout.
  - destruct (handle_outgoing_callback e r m Hout) as [(cb & E & _) | E];
      rewrite E; clear E.
    + destruct (post_settings m cb r) as (? & ? & ? & ? & _).
      destruct e; try done.
    + destruct (post_settings m (Some (Settle (length (promises r))))
                  (set_promises (promises r ++ [Pending]) r)) as (? & ? & ? & ? & _).
      destruct e; try done.
  - destruct e; simpl in *; try done.
    + destruct (String.eqb_spec (cmd message) CMD_PING) as [Hp | Hp]; [done |].
      destruct (onRequest_cases message r)
        as [(k & cb & _ & _ & _ & Hth & ->) | [(_ & _ & ->) | [(Hp' & _) | [(_ & _ & ->)
           | (kt & ft & _ & _ & _ & _ & ->)]]]];
        try done.
      simpl. by destruct (invoke_fields cb (result message) r) as (-> & _).
    + unfold _onOpenWebsocket.
      pose proof (flush_this (waitingMessages (this r))
                    (set_this (set_websocketConnected true (this r)) r))
        as (Ht & _).
      pose proof (flush_quiet (waitingMessages (this r))
                    (set_this (set_websocketConnected true (this r)) r))
        as (Hs & Hf & _).
      simpl in *. destruct (flush _ _) as [r2 o2]. simpl in *.
      unfold timeouts in *. rewrite Ht, omap_app, List.filter_app, Hs, Hf. done.
    + unfold _onCloseWebsocket, gives_up. simpl.
      destruct (attempts (reconnect (this r)) =? 0); [done |]. simpl.
      by destruct (_ && _).
    + unfold reconnect_timer. by destruct (timers r).
    + unfold _connect_resume. by destruct (fetching r).
Qed.

(** The settings of a client are those of its construction. *)
Lemma run_settings es r : settings (this (run es r).1) = settings (this r).
Proof.
  revert r. induction es as [| e es IH]; intros r; [done |]. simpl.
  destruct (handle_settings e r) as (Hs & _).
  destruct (handle e r) as [r1 o1]. specialize (IH r1).
  destruct (run es r1) as [r2 o2]. simpl in *. congruence.
Qed.

Lemma session_settings address options es :
  settings (this (session address options es).1)
  = settings (this (new address options).1).
Proof.
  unfold session. pose proof (run_settings es (new address options).1) as H.
  destruct (new address options) as [r0 o0]. simpl in *.
  by destruct (run es r0).
Qed.

(** ** The delay and the limit of reconnecting *)

Lemma run_timeouts es r :
  timeouts (run es r).2
  = if gives_up (this r) then []
    else replicate (closures es) (delay (reconnect (this r))).
Proof.
  revert r. induction es as [| e es IH]; intros r; simpl.
  - by destruct (gives_up (this r)).
  - destruct (handle_settings e r) as (Hs & _ & Ht & _).
    assert (Hg : gives_up (this (handle e r).1) = gives_up (this r)).
    { unfold gives_up. injection Hs as _ _ _ -> _ _ _ _ _ ->. done. }
    assert (Hd : reconnect (this (handle e r).1) = reconnect (this r)).
    { by injection Hs as _ _ _ -> _. }
    specialize (IH (handle e r).1). rewrite Hg, Hd in IH.
    destruct (handle e r) as [r1 o1]. simpl in *.
    destruct (run es r1) as [r2 o2]. simpl in *.
    unfold timeouts in *. rewrite omap_app, Ht, IH. unfold closures.
    destruct e; simpl; try done. by destruct (gives_up (this r)).
Qed.

Lemma session_timeouts address options es :
  timeouts (session address options es).2
  = if gives_up (this (new address options).1) then []
    else replicate (closures es) (delay (options_reconnect options)).
Proof.
  unfold session. pose proof (run_timeouts es (new address options).1) as H.
  destruct (new address options) as [r0 o0] eqn:Hn. simpl in H.
  assert (Hr : reconnect (this r0) = options_reconnect options).
  { unfold new, _connect in Hn. by injection Hn as <- _. }
  destruct (run es r0) as [r1 o1]. simpl in *.
  unfold timeouts in *. rewrite omap_app, H, Hr.
  assert (E : omap timeout o0 = []).
  { unfold new, _connect in Hn. by injection Hn as _ <-. }
  by rewrite E.
Qed.



(** X2.  A negative limit other than [-1] works as [0] does: the counter,
    1, exceeds it, and no close ever sets a timer.  This is a run of the
    client alone: no other client is constructed during it, so the
    reconnect object holds what the client was constructed with. *)
Theorem reconnect_never_below_minus_one address options es :
  attempts (options_reconnect options) < -1 →
  timeouts (session address options es).2 = []
  ∧ scheduled (session address options es).2 = 0%nat.
Proof.
  intros Ha.
  assert (Ht : timeouts (session address options es).2 = []).
  { rewrite session_timeouts. unfold gives_up, new, _connect. simpl.
    destruct (_ =? 0); [done |]. simpl.
    replace (_ =? -1) with false by lia. simpl.
    by replace (1 >? _) with true by lia. }
  split; [done |]. unfold timeouts, scheduled in *.
  induction ((session address options es).2) as [| e out IH]; [done |].
  simpl in *. destruct e; simpl in *; try done; auto.
Qed.

Lemma reconnect_never_below_minus_one_witness :
  timeouts (session "1HeLLo"
              (mkOptions (mkMultiuser None None) (mkInstance "127.0.0.1" 43110 false)
                 (mkShow false false) (mkReconnect (-2) 5000))
              [PageFetched "key"; Opened; Closed; TimerFired; Closed]).2 = [].
Proof.
  exact (proj1 (reconnect_never_below_minus_one "1HeLLo"
    (mkOptions (mkMultiuser None None) (mkInstance "127.0.0.1" 43110 false)
       (mkShow false false) (mkReconnect (-2) 5000))
    [PageFetched "key"; Opened; Closed; TimerFired; Closed] eq_refl)).
Defined.

(** ** One fetch, one key, one address *)

Lemma append_assoc (a b c : string) : (a +:+ b) +:+ c = a +:+ (b +:+ c).
Proof.
  induction a as [| x a IH]; [done |].
  change (String x ((a +:+ b) +:+ c) = String x (a +:+ (b +:+ c))). by f_equal.
Qed.

Lemma getWebsocket_socket r :
  _getWebsocket r
  = (sockets r, set_sockets (S (sockets r)) r,
     [NewWebSocket (socket_url (this r)) (socket_cookie (this r))]).
Proof. done. Qed.

Lemma handle_connection e r :
  List.filter is_connection (handle e r).2
  = match e with
    | TimerFired =>
      if timers r is O then []
      else [NewWebSocket (socket_url (this r)) (socket_cookie (this r))]
    | PageFetched key =>
      if fetching r
      then [NewWebSocket (socket_url (set_wrapperKey (Some key) (this r)))
                         (socket_cookie (this r))]
      else []
    | _ => []
    end.
Proof.
  destruct (outgoing e) as [m |] eqn:Hout.
  - destruct (handle_outgoing_callback e r m Hout) as [(cb & E & _) | E];
      rewrite E; clear E.
    + destruct (post_settings m cb r) as (_ & _ & _ & _ & ? & _).
      destruct e; try done.
    + destruct (post_settings m (Some (Settle (length (promises r))))
                  (set_promises (promises r ++ [Pending]) r)) as (_ & _ & _ & _ & ? & _).
      destruct e; try done.
  - destruct e; simpl in *; try done.
    + destruct (String.eqb_spec (cmd message) CMD_PING) as [Hp | Hp]; [done |].
      by destruct (onRequest_cases message r)
        as [(k & cb & _ & _ & _ & Hth & ->) | [(_ & _ & ->) | [(Hp' & _) | [(_ & _ & ->)
           | (kt & ft & _ & _ & _ & _ & ->)]]]].
    + unfold _onOpenWebsocket.
      pose proof (flush_quiet (waitingMessages (this r))
                    (set_this (set_websocketConnected true (this r)) r))
        as (_ & _ & Hc & _).
      simpl in *. destruct (flush _ _) as [r2 o2]. simpl in *.
      by rewrite List.filter_app, Hc.
    + unfold _onCloseWebsocket. simpl.
      destruct (attempts (reconnect (this r)) =? 0); [done |]. simpl.
      by destruct (_ && _).
    + unfold reconnect_timer. by destruct (timers r).
    + unfold _connect_resume. by destruct (fetching r).
Qed.

Lemma socket_settings z z' :
  settings z' = settings z → wrapperKey z' = wrapperKey z →
  socket_url z' = socket_url z ∧ socket_cookie z' = socket_cookie z.
Proof.
  unfold settings, socket_url, socket_cookie.
  by intros [= -> _ _ _ _ -> -> -> _ _] ->.
Qed.

(** Once the key is there every socket is created with the same two
    arguments. *)
Lemma run_connections es r key :
  wrapperKey (this r) = Some key → fetching r = false →
  Forall (λ e, e = NewWebSocket (socket_url (this r)) (socket_cookie (this r)))
         (List.filter is_connection (run es r).2).
Proof.
  revert r. induction es as [| e es IH]; intros r Hk Hf; simpl; [constructor |].
  destruct (handle_settings e r) as (Hs & Hw & _).
  destruct (handle_loop e r) as (_ & _ & Hl).
  pose proof (handle_connection e r) as Hc.
  assert (Hw1 : wrapperKey (this (handle e r).1) = Some key).
  { rewrite Hw. destruct e; try done. by rewrite Hf. }
  assert (Hf1 : fetching (handle e r).1 = false).
  { destruct e; try (destruct Hl as (_ & -> & _); done).
    - by destruct Hl as (-> & _).
    - by destruct Hl as (-> & _).
    - by destruct Hl as (_ & _ & -> & _). }
  destruct (socket_settings (this r) (this (handle e r).1) Hs) as [Eu Ec];
    [congruence |].
  specialize (IH (handle e r).1 Hw1 Hf1). rewrite Eu, Ec in IH.
  destruct (handle e r) as [r1 o1]. simpl in *.
  destruct (run es r1) as [r2 o2]. simpl in *.
  rewrite List.filter_app. apply Forall_app. split; [| done].
  rewrite Hc. destruct e; try constructor.
  - destruct (timers r); constructor; [done | constructor].
  - rewrite Hf. constructor.
Qed.

Lemma run_fetches es r : List.filter is_fetch (run es r).2 = [].
Proof.
  revert r. induction es as [| e es IH]; intros r; [done |]. simpl.
  destruct (handle_settings e r) as (_ & _ & _ & Hf).
  destruct (handle e r) as [r1 o1]. specialize (IH r1).
  destruct (run es r1) as [r2 o2]. simpl in *.
  by rewrite List.filter_app, Hf, IH.
Qed.

Lemma run_fetching es r :
  fetching (run es r).1 = fetching r && forallb (λ e, negb (is_page e)) es.
Proof.
  revert r. induction es as [| e es IH]; intros r; simpl.
  - by rewrite andb_true_r.
  - destruct (handle_loop e r) as (_ & _ & Hl).
    specialize (IH (handle e r).1).
    destruct (handle e r) as [r1 o1]. simpl in *.
    destruct (run es r1) as [r2 o2]. simpl in *. rewrite IH.
    destruct e; simpl; try (destruct Hl as (_ & -> & _); done).
    + by destruct Hl as (-> & _).
    + by destruct Hl as (-> & _).
    + destruct Hl as (_ & _ & -> & _). by rewrite andb_false_r.
Qed.

Lemma run_first_key es r :
  wrapperKey (this (run es r).1)
  = if fetching r then
      match head (omap page_key es) with
      | Some key => Some key
      | None => wrapperKey (this r)
      end
    else wrapperKey (this r).
Proof.
  revert r. induction es as [| e es IH]; intros r; simpl.
  - by destruct (fetching r).
  - destruct (handle_settings e r) as (_ & Hw & _).
    destruct (handle_loop e r) as (_ & _ & Hl).
    specialize (IH (handle e r).1).
    destruct (handle e r) as [r1 o1]. simpl in *.
    destruct (run es r1) as [r2 o2]. simpl in *. rewrite IH, Hw.
    destruct e; simpl; try (destruct Hl as (_ & -> & _); done).
    + by destruct Hl as (-> & _).
    + by destruct Hl as (-> & _).
    + destruct Hl as (_ & _ & -> & _). by destruct (fetching r).
Qed.

(** X3.  The wrapper page is fetched once, by the constructor, from the
    address of line 39, and never again: a reconnection opens a socket
    only.  The key the client holds is the one of the page, and once it is
    there every socket, the first and the ones of reconnections, is created
    for the same host, port and scheme security as the page, with that
    key, and with the master-address cookie exactly when a master address
    that is not empty is configured. *)
Theorem one_fetch_one_key address options before key after :
  let es := before ++ PageFetched key :: after in
  forallb (λ e, negb (is_page e)) before = true →
  List.filter is_fetch (session address options es).2
  = [Fetch ("http" +:+ origin options +:+ "/" +:+ address)]
  ∧ wrapperKey (this (session address options before).1) = None
  ∧ wrapperKey (this (session address options es).1) = Some key
  ∧ Forall (λ e, e = NewWebSocket
                       ("ws" +:+ origin options +:+ "/Websocket?wrapper_key=" +:+ key)
                       (cookie options))
           (List.filter is_connection
              (run (PageFetched key :: after) (session address options before).1).2).
Proof.
  intros es Hb.
  assert (Hurl : ∀ z, settings z = settings (this (new address options).1) →
            wrapperKey z = Some key →
            socket_url z
            = "ws" +:+ origin options +:+ "/Websocket?wrapper_key=" +:+ key
            ∧ socket_cookie z = cookie options).
  { intros z [= Hm _ _ _ _ Hh Hp Hs _ _] Hk.
    unfold socket_url, socket_cookie, cookie, origin. rewrite Hm, Hh, Hp, Hs, Hk.
    simpl. by rewrite !append_assoc. }
  assert (Hkeys : omap page_key before = []).
  { clear -Hb. induction before as [| e l IH]; [done |]. simpl in *.
    apply andb_prop in Hb as [He Hl]. destruct e; simpl in *; auto; done. }
  assert (Hfetch : ∀ l, List.filter is_fetch (session address options l).2
                        = [Fetch ("http" +:+ origin options +:+ "/" +:+ address)]).
  { intros l. unfold session. pose proof (run_fetches l (new address options).1) as H.
    unfold new, _connect in *. simpl in *.
    destruct (run l _) as [r1 o1]. simpl in *. rewrite H.
    unfold origin. by rewrite !append_assoc. }
  assert (Hrun : ∀ l, (session address options l).1 = (run l (new address options).1).1).
  { intros l. unfold session. destruct (new address options) as [r0 o0]. simpl.
    by destruct (run l r0). }
  split; [apply Hfetch |]. split.
  { rewrite Hrun, run_first_key, Hkeys. done. }
  split.
  { subst es. rewrite Hrun, run_first_key, omap_app, Hkeys. done. }
  assert (Hf : fetching (session address options before).1 = true).
  { rewrite Hrun, run_fetching, Hb. done. }
  assert (Hs : settings (this (session address options before).1)
               = settings (this (new address options).1))
    by apply session_settings.
  remember (session address options before).1 as r eqn:Hr. clear Hr.
  change (run (PageFetched key :: after) r)
    with (let '(r1, out1) := _connect_resume key r in
          let '(r2, out2) := run after r1 in (r2, out1 ++ out2)).
  pose proof (run_connections after (_connect_resume key r).1 key) as Hc.
  unfold _connect_resume in *. rewrite Hf in *. simpl in *.
  specialize (Hc eq_refl eq_refl).
  destruct (run after _) as [r2 o2]. simpl in *.
  destruct (Hurl (set_wrapperKey (Some key) (this r))) as [Eu Ec]; [done | done |].
  constructor.
  - f_equal; [exact Eu | exact Ec].
  - eapply Forall_impl; [exact Hc |]. simpl. intros e ->.
    f_equal; [exact Eu | exact Ec].
Qed.

Lemma one_fetch_one_key_witness :
  let options := mkOptions (mkMultiuser (Some "1Master") None)
                   (mkInstance "zero.example" 443 true)
                   (mkShow false false) (mkReconnect (-1) 100) in
  let es := [CallCmdp "siteInfo" JUndefined; PageFetched "k1"; Opened; Closed;
             TimerFired; PageFetched "k2"; Closed; TimerFired] in
  List.filter is_fetch (session "1HeLLo" options es).2
  = [Fetch "https://zero.example:443/1HeLLo"]
  ∧ List.filter is_connection (session "1HeLLo" options es).2
    = replicate 3 (NewWebSocket "wss://zero.example:443/Websocket?wrapper_key=k1"
                                (Some "master_address=1Master")).
Proof.
  split; [| reflexivity].
  exact (proj1 (one_fetch_one_key "1HeLLo"
    (mkOptions (mkMultiuser (Some "1Master") None) (mkInstance "zero.example" 443 true)
       (mkShow false false) (mkReconnect (-1) 100))
    [CallCmdp "siteInfo" JUndefined] "k1"
    [Opened; Closed; TimerFired; PageFetched "k2"; Closed; TimerFired] eq_refl)).
Defined.

(** ** The key in the page *)

Lemma capture_spec s key :
  capture s = Some key
  ↔ ∃ post, s = key +:+ String quote post ∧ all_plain key = true.
Proof.
  split.
  - revert key. induction s as [| c rest IH]; intros key; [done |]. simpl.
    destruct (Ascii.eqb_spec c quote) as [-> | Hq].
    + intros [= <-]. by exists rest.
    + destruct (line_terminator c) eqn:Hl; [done |].
      destruct (capture rest) as [k |]; [| done]. intros [= <-].
      destruct (IH k eq_refl) as (post & -> & Hp). exists post. split; [done |].
      simpl. unfold plain. rewrite Hl, Hp.
      by destruct (Ascii.eqb_spec c quote).
  - intros (post & -> & Hp). revert Hp.
    induction key as [| c k IH]; intros Hp; [done |].
    simpl in Hp. apply andb_prop in Hp as [Hc Hk]. unfold plain in Hc.
    apply andb_prop in Hc as [Hq%negb_true_iff Hl%negb_true_iff].
    change (capture (String c (k +:+ String quote post)) = Some (String c k)).
    simpl. rewrite Hq, Hl, (IH Hk). done.
Qed.

Lemma strip_spec p s rest : strip p s = Some rest ↔ s = p +:+ rest.
Proof.
  revert s. induction p as [| a p IH]; intros s.
  - simpl. split; [by intros [= ->] | by intros ->].
  - destruct s as [| b s]; [done |]. simpl.
    change (String a p +:+ rest) with (String a (p +:+ rest)).
    destruct (Ascii.eqb_spec a b) as [-> | Hne].
    + rewrite IH. split; [by intros -> | by intros [= ->]].
    + split; [done | by intros [= -> _]].
Qed.

Lemma match_here_spec s key : match_here s = Some key ↔ found s "" key.
Proof.
  unfold match_here, found. split.
  - destruct (strip marker s) as [rest |] eqn:Hs; [| done].
    apply strip_spec in Hs as ->.
    intros (post & -> & Hp)%capture_spec. by exists post.
  - intros (post & -> & Hp).
    change ("" +:+ marker +:+ key +:+ String quote post)
      with (marker +:+ key +:+ String quote post).
    rewrite (proj2 (strip_spec marker _ (key +:+ String quote post)) eq_refl).
    apply capture_spec. by exists post.
Qed.

Lemma found_cons c rest pre key :
  found (String c rest) (String c pre) key ↔ found rest pre key.
Proof.
  unfold found. split; intros (post & H & Hp); exists post; (split; [| done]).
  - change (String c pre +:+ marker +:+ key +:+ String quote post)
      with (String c (pre +:+ marker +:+ key +:+ String quote post)) in H.
    by injection H.
  - by rewrite H.
Qed.

Lemma found_head c rest pre key :
  found (String c rest) pre key →
  pre = "" ∨ ∃ pre', pre = String c pre' ∧ found rest pre' key.
Proof.
  destruct pre as [| c' pre']; [by left |]. intros Hf. right.
  assert (c' = c) as ->.
  { destruct Hf as (post & H & _).
    change (String c' pre' +:+ marker +:+ key +:+ String quote post)
      with (String c' (pre' +:+ marker +:+ key +:+ String quote post)) in H.
    by injection H. }
  exists pre'. split; [done |]. by apply (found_cons c).
Qed.

Lemma found_empty pre key : ¬ found "" pre key.
Proof. intros (post & H & _). by destruct pre. Qed.

Lemma found_unique s key key' : found s "" key → found s "" key' → key = key'.
Proof.
  intros H%match_here_spec H'%match_here_spec. congruence.
Qed.

Lemma match_spec s key :
  match_ s = Some key
  ↔ ∃ pre, found s pre key
           ∧ ∀ pre' key', found s pre' key' →
                          (String.length pre ≤ String.length pre')%nat.
Proof.
  revert key. induction s as [| c rest IH]; intros key.
  - simpl. split; [done |]. intros (pre & Hf & _). by apply found_empty in Hf.
  - simpl. destruct (match_here (String c rest)) as [k |] eqn:Hm.
    + apply match_here_spec in Hm. split.
      * intros [= <-]. exists "". split; [done |]. intros; simpl; lia.
      * intros (pre & Hf & Hleft). specialize (Hleft "" k Hm).
        destruct pre; [| simpl in Hleft; lia].
        f_equal. by eapply found_unique.
    + assert (Hno : ∀ k, ¬ found (String c rest) "" k).
      { intros k Hk%match_here_spec. congruence. }
      rewrite IH. split.
      * intros (pre & Hf & Hleft). exists (String c pre).
        split; [by apply found_cons |]. intros pre' key' Hf'.
        destruct (found_head _ _ _ _ Hf') as [-> | (p & -> & Hp)].
        -- by apply Hno in Hf'.
        -- simpl. specialize (Hleft p key' Hp). lia.
      * intros (pre & Hf & Hleft).
        destruct (found_head _ _ _ _ Hf) as [-> | (p & -> & Hp)].
        -- by apply Hno in Hf.
        -- exists p. split; [done |]. intros pre' key' Hf'.
           specialize (Hleft (String c pre') key' (proj2 (found_cons _ _ _ _) Hf')).
           simpl in Hleft. lia.
Qed.

Lemma match_none s : match_ s = None ↔ ∀ pre key, ¬ found s pre key.
Proof.
  induction s as [| c rest IH].
  - simpl. split; [| done]. intros _ pre key. apply found_empty.
  - simpl. destruct (match_here (String c rest)) as [k |] eqn:Hm.
    + apply match_here_spec in Hm. split; [done |]. intros H. by apply H in Hm.
    + rewrite IH. split.
      * intros H pre key Hf.
        destruct (found_head _ _ _ _ Hf) as [-> | (p & -> & Hp)].
        -- apply match_here_spec in Hf. congruence.
        -- by apply H in Hp.
      * intros H pre key Hf. apply (H (String c pre) key). by apply found_cons.
Qed.

(** X4.  [_getWrapperKey] returns the key of the first marker of the page
    that is well formed: the text between the marker (with its opening
    quote) and the next quote, on one line.  It returns [key] exactly when the page reads
    [pre ++ marker ++ key ++ quote ++ post] with no quote and no line
    terminator in [key], and no such reading starts further left; the
    connection then goes on with that key. *)
Theorem wrapper_key_is_first_match body key :
  (_getWrapperKey body = Some key
   ↔ ∃ pre, found body pre key
            ∧ ∀ pre' key', found body pre' key' →
                           (String.length pre ≤ String.length pre')%nat)
  ∧ (_getWrapperKey body = Some key →
     all_plain key = true ∧ ∀ r, _connect_page body r = _connect_resume key r).
Proof.
  split; [apply match_spec |]. intros Hk. split.
  - apply match_spec in Hk as (pre & (post & _ & Hp) & _). exact Hp.
  - intros r. unfold _connect_page, _connect_resume. rewrite Hk.
    by destruct (fetching r).
Qed.

Lemma wrapper_key_is_first_match_witness :
  let page := "<script>wrapper_key = " +:+ String quote "abc" +:+ String quote
              "; wrapper_key = " +:+ String quote "def" +:+ String quote ";" in
  _getWrapperKey page = Some "abc" ∧ all_plain "abc" = true.
Proof.
  split; [reflexivity |].
  exact (proj1 (proj2 (wrapper_key_is_first_match
    ("<script>wrapper_key = " +:+ String quote "abc" +:+ String quote
     "; wrapper_key = " +:+ String quote "def" +:+ String quote ";") "abc")
    eq_refl)).
Defined.

(** X5.  [_getWrapperKey] fails, with the [TypeError] of reading [[1]] of
    [null], exactly when the page has no well-formed marker anywhere: no
    marker at all, or none whose quote is closed on its line.  The
    connection then stops: no key is stored and no socket is created. *)
Theorem wrapper_key_missing body :
  (_getWrapperKey body = None ↔ ∀ pre key, ¬ found body pre key)
  ∧ (_getWrapperKey body = None →
     ∀ r, (_connect_page body r).2 = []
          ∧ this (_connect_page body r).1 = this r
          ∧ sockets (_connect_page body r).1 = sockets r
          ∧ fetching (_connect_page body r).1 = false).
Proof.
  split; [apply match_none |]. intros Hk r. unfold _connect_page. rewrite Hk.
  by destruct (fetching r) eqn:Hf.
Qed.

Lemma wrapper_key_missing_witness :
  let page := "wrapper_key = " +:+ String quote ("abc" +:+ String line_feed "def")
              +:+ String quote "" in
  _getWrapperKey page = None
  ∧ (_connect_page page (new "1HeLLo" defaults).1).2 = []
  ∧ sockets (_connect_page page (new "1HeLLo" defaults).1).1 = 0%nat.
Proof.
  split; [reflexivity |].
  pose proof (proj2 (wrapper_key_missing
    ("wrapper_key = " +:+ String quote ("abc" +:+ String line_feed "def")
     +:+ String quote "")) eq_refl (new "1HeLLo" defaults).1) as (Ho & _ & Hs & _).
  split; [exact Ho | exact Hs].
Defined.

(** ** No message is lost and none is doubled *)

Lemma pending_same r r' :
  objects r' = objects r → waitingMessages (this r') = waitingMessages (this r) →
  pending r' = pending r.
Proof.
  intros Ho Hq. unfold pending. rewrite Hq. apply List.filter_ext.
  intros l. unfold unprocessed. by rewrite Ho.
Qed.

Lemma sent_nil_transmissions out : sent out = [] → transmissions out = [].
Proof. unfold sent. apply fmap_nil_inv. Qed.

Lemma post_transmissions m cb r :
  transmissions (post m cb r).2
  = if websocketConnected (this r)
    then [(length (objects r), set_id (Some (nextMessageId (this r))) m)] else [].
Proof. unfold post. simpl. by destruct (websocketConnected (this r)). Qed.

Lemma transmissions_app a b :
  transmissions (a ++ b) = transmissions a ++ transmissions b.
Proof. unfold transmissions. by rewrite omap_app. Qed.

Lemma transmissions_sends (ws : option nat) (f : nat → Message) (q : list nat) :
  transmissions ((λ l, Send ws l (f l)) <$> q) = (λ l, (l, f l)) <$> q.
Proof.
  induction q as [| a q IH]; [done |].
  change (transmissions ((λ l, Send ws l (f l)) <$> a :: q))
    with ((a, f a) :: transmissions ((λ l, Send ws l (f l)) <$> q)).
  by rewrite IH.
Qed.

(** An event that neither sends nor opens leaves store and queue alone and
    hands nothing to the socket. *)
Lemma handle_still e r :
  outgoing e = None → e ≠ Opened →
  objects (handle e r).1 = objects r
  ∧ waitingMessages (this (handle e r).1) = waitingMessages (this r)
  ∧ sent (handle e r).2 = [].
Proof.
  intros Hout Hopen.
  assert (Hcore : core (handle e r).1 = core r ∧ sent (handle e r).2 = [] →
            objects (handle e r).1 = objects r
            ∧ waitingMessages (this (handle e r).1) = waitingMessages (this r)
            ∧ sent (handle e r).2 = []).
  { by intros [[= _ -> -> _ _] ->]. }
  destruct e; try discriminate Hout; try done.
  - simpl in *.
    destruct (String.eqb_spec (cmd message) CMD_PING) as [Hp | Hp]; [done |].
    destruct (onRequest_cases message r)
      as [(k & cb & _ & _ & _ & Hth & ->) | [(_ & _ & ->) | [(Hp' & _) | [(_ & _ & ->)
         | (kt & ft & _ & _ & _ & _ & ->)]]]];
      try done.
    simpl. by destruct (invoke_fields cb (result message) r) as (-> & -> & _).
  - apply Hcore. by destruct (handle_core Closed r) as (? & ? & _).
  - apply Hcore. by destruct (handle_core TimerFired r) as (? & ? & _).
  - apply Hcore. by destruct (handle_core (PageFetched key) r) as (? & ? & _).
Qed.

Lemma opened_or_not (e : Event) : e = Opened ∨ e ≠ Opened.
Proof. destruct e; (by left) || (by right). Qed.

Lemma handle_accounted e r past :
  wf r → accounted r past →
  accounted (handle e r).1 (past ++ (handle e r).2).
Proof.
  intros Hwf Hacc. unfold accounted in *.
  destruct (outgoing e) as [m |] eqn:Hout.
  - destruct (handle_outgoing e r m Hout) as (cb & r0 & -> & Ht & Ho).
    destruct (outgoing_literal e m Hout) as [_ Hpm].
    destruct (post_fields m cb r0) as (_ & Eo & Eq & _).
    pose proof (post_sent m cb r0) as Es.
    destruct (post m cb r0) as [r' out]. simpl in *.
    rewrite Ht, Ho in *. intros l. rewrite Eo, length_app, sent_app, Es. simpl.
    intros Hl. destruct (decide (l < length (objects r))%nat) as [Hlt | Hge].
    + destruct (Hacc l Hlt) as [Hs | [Hq Hu]%elem_of_pending].
      * left. apply elem_of_app. by left.
      * right. apply elem_of_pending. split.
        -- rewrite Eq. destruct (websocketConnected (this r)); [done |].
           apply elem_of_app. by left.
        -- unfold unprocessed in *. by rewrite Eo, lookup_app_l.
    + assert (l = length (objects r)) as -> by lia.
      destruct (websocketConnected (this r)).
      * left. apply elem_of_app. right. apply list_elem_of_here.
      * right. apply elem_of_pending. split.
        -- rewrite Eq. apply elem_of_app. right. apply list_elem_of_here.
        -- unfold unprocessed. rewrite Eo, lookup_app_r, Nat.sub_diag by lia.
           simpl. by rewrite Hpm.
  - destruct (opened_or_not e) as [-> | Hne].
    + simpl. destruct (open_spec r (wf_queue_nodup r Hwf)) as (store & -> & Hlen & _).
      simpl. intros l. rewrite Hlen. intros Hl. left.
      rewrite sent_app, sent_app, sent_sends.
      destruct (Hacc l Hl) as [Hs | Hp]; apply elem_of_app; [by left |].
      right. apply elem_of_app. by left.
    + destruct (handle_still e r Hout Hne) as (Ho & Hq & Hs).
      intros l. rewrite Ho, sent_app, Hs, app_nil_r, (pending_same r _ Ho Hq).
      apply Hacc.
Qed.

Lemma run_accounted es r past :
  wf r → accounted r past → accounted (run es r).1 (past ++ (run es r).2).
Proof.
  revert r past. induction es as [| e es IH]; intros r past Hwf Hacc; simpl.
  - by rewrite app_nil_r.
  - pose proof (handle_accounted e r past Hwf Hacc) as Hacc1.
    pose proof (handle_wf e r (handle e r).1 (handle e r).2 Hwf) as Hwf1.
    destruct (handle e r) as [r1 o1]. simpl in *.
    specialize (IH r1 _ (Hwf1 eq_refl) Hacc1).
    destruct (run es r1) as [r2 o2]. simpl in *. by rewrite app_assoc.
Qed.

(** X6.  No message is lost and none is doubled.  After any run the
    message objects the client has made, one per message it was asked to
    send, are exactly the objects handed to the socket so far together
    with the entries of the queue not yet processed, each of them once. *)
Theorem messages_sent_or_pending address options es :
  let r := (session address options es).1 in
  let out := (session address options es).2 in
  sent out ++ pending r ≡ₚ seq 0 (length (omap outgoing es))
  ∧ length (objects r) = length (omap outgoing es).
Proof.
  intros r out.
  destruct (session_wf address options es r out) as [Hwf Htr];
    [by subst r out; destruct (session _ _ _) |].
  destruct (session_store address options es) as [Hlen _]. fold r in Hlen.
  assert (Hacc : accounted r out).
  { subst r out. unfold session.
    assert (H0 : accounted (new address options).1 (new address options).2).
    { intros l Hl. simpl in Hl. lia. }
    pose proof (run_accounted es _ _ (wf_new address options) H0) as H.
    destruct (new address options) as [r0 o0]. simpl in *.
    by destruct (run es r0). }
  split; [| done]. rewrite <- Hlen. apply NoDup_Permutation.
  - apply NoDup_app. split; [apply Htr |]. split.
    + intros l [_ Hl]%(traced_sent r out Htr) [Hq Hu]%elem_of_pending.
      rewrite (Hl Hq) in Hu. done.
    + apply NoDup_pending, Hwf.
  - apply NoDup_seq.
  - intros l. rewrite elem_of_seq, elem_of_app. split.
    + intros [[Hl _]%(traced_sent r out Htr) | [Hq _]%elem_of_pending]; [lia |].
      apply (wf_queue_bound r Hwf) in Hq. lia.
    + intros [_ Hl]. by apply Hacc.
Qed.

(** ** What is written on the wire *)

Lemma handle_wired e r past :
  wf r → wired r past → wired (handle e r).1 (past ++ (handle e r).2).
Proof.
  intros Hwf Hw. destruct (handle_store e r Hwf) as [Hev _].
  assert (Hold : ∀ l m, (l, m) ∈ transmissions past →
            processed m = false
            ∧ ∃ b, objects (handle e r).1 !! l = Some (set_processed b m)).
  { intros l m [Hp [b Hb]]%Hw. split; [done |].
    destruct (Hev l _ Hb) as [b' Hb']. by exists b'. }
  intros l m. rewrite transmissions_app. intros [Hin | Hin]%elem_of_app; [auto |].
  clear Hold. destruct (outgoing e) as [m0 |] eqn:Hout.
  - destruct (handle_outgoing e r m0 Hout) as (cb & r0 & E & Ht & Ho).
    destruct (outgoing_literal e m0 Hout) as [_ Hpm].
    rewrite E in *. destruct (post_fields m0 cb r0) as (_ & Eo & _).
    rewrite post_transmissions in Hin.
    destruct (websocketConnected (this r0)); [| by apply elem_of_nil in Hin].
    apply list_elem_of_singleton in Hin as [= -> ->]. split; [done |].
    exists false. rewrite Eo, lookup_app_r, Nat.sub_diag by lia. simpl.
    by rewrite <- Hpm.
  - destruct (opened_or_not e) as [-> | Hne].
    + simpl in *.
      destruct (open_spec r (wf_queue_nodup r Hwf)) as (store & E & Hlen & Hst).
      rewrite E in *. simpl in *.
      rewrite transmissions_app, transmissions_sends in Hin. simpl in Hin.
      rewrite app_nil_r in Hin.
      apply list_elem_of_fmap in Hin as (l' & [= -> ->] & [Hq Hu]%elem_of_pending).
      unfold unprocessed in Hu.
      destruct (objects r !! l') as [x |] eqn:Hx; [| done].
      rewrite (list_lookup_total_correct _ _ _ Hx).
      split; [by destruct (processed x) |].
      exists true. rewrite Hst, Hx. simpl. unfold mark. by rewrite decide_True.
    + destruct (handle_still e r Hout Hne) as (_ & _ & Hs).
      apply sent_nil_transmissions in Hs. rewrite Hs in Hin.
      by apply elem_of_nil in Hin.
Qed.

Lemma run_wired es r past :
  wf r → wired r past → wired (run es r).1 (past ++ (run es r).2).
Proof.
  revert r past. induction es as [| e es IH]; intros r past Hwf Hw; simpl.
  - by rewrite app_nil_r.
  - pose proof (handle_wired e r past Hwf Hw) as Hw1.
    pose proof (handle_wf e r (handle e r).1 (handle e r).2 Hwf) as Hwf1.
    destruct (handle e r) as [r1 o1]. simpl in *.
    specialize (IH r1 _ (Hwf1 eq_refl) Hw1).
    destruct (run es r1) as [r2 o2]. simpl in *. by rewrite app_assoc.
Qed.

Lemma set_processed_false m : processed m = false → set_processed false m = m.
Proof. destruct m. simpl. by intros ->. Qed.

(** X7.  What is serialised for the socket is the message of the call,
    with its identifier and nothing else.  Every object given to
    [JSON.stringify] at lines 196 and 382 in a run is the object literal
    of the [n]-th sending event (a call of the command surface or an
    inbound ping) with the identifier [n]; the [processed] mark, which is
    set after the send, is not yet on the object then.  This is about the
    object that is serialised; the text [JSON.stringify] makes of it is not
    part of the model. *)
Theorem wire_carries_the_message address options es l m :
  (l, m) ∈ transmissions (session address options es).2 →
  processed m = false
  ∧ ∃ literal e, outgoing e = Some literal ∧ e ∈ es
                 ∧ omap outgoing es !! l = Some literal
                 ∧ m = set_id (Some (Z.of_nat l + 1)) literal.
Proof.
  intros Hin.
  assert (Hw : wired (session address options es).1 (session address options es).2).
  { unfold session.
    assert (H0 : wired (new address options).1 (new address options).2).
    { intros l' m' Hl'. by apply elem_of_nil in Hl'. }
    pose proof (run_wired es _ _ (wf_new address options) H0) as H.
    destruct (new address options) as [r0 o0]. simpl in *.
    by destruct (run es r0). }
  destruct (Hw l m Hin) as [Hp [b Hb]]. split; [done |].
  destruct (session_store address options es) as [Hlen Hnew].
  pose proof (lookup_lt_Some _ _ _ Hb) as Hlt. rewrite Hlen in Hlt.
  destruct (lookup_lt_is_Some_2 _ _ Hlt) as [literal Hlit].
  destruct (Hnew l literal Hlit) as [b' Hb']. rewrite Hb in Hb'.
  assert (Heq : set_processed b m
                = set_processed b' (set_id (Some (Z.of_nat l + 1)) literal))
    by congruence.
  assert (Hin' : literal ∈ omap outgoing es) by by eapply list_elem_of_lookup_2.
  apply list_elem_of_omap in Hin' as (e & He & Hout).
  exists literal, e. repeat split; try done.
  destruct (outgoing_literal e literal Hout) as [_ Hpl].
  rewrite <- (set_processed_false m Hp).
  rewrite <- (set_processed_false (set_id _ literal)) by done.
  apply (f_equal (set_processed false)) in Heq. exact Heq.
Qed.

Lemma wire_carries_the_message_witness :
  transmissions (session "1HeLLo" defaults
                   [CallCmd "siteInfo" JUndefined None; PageFetched "key"; Opened;
                    CallResponse (Some 3) (JStr "ok")]).2
  = [(0%nat, mkMessage (Some 1) "siteInfo" (JObj []) None JUndefined false);
     (1%nat, mkMessage (Some 2) CMD_RESPONSE JUndefined (Some 3) (JStr "ok") false)]
  ∧ processed (mkMessage (Some 1) "siteInfo" (JObj []) None JUndefined false) = false.
Proof.
  assert (E : transmissions (session "1HeLLo" defaults
                   [CallCmd "siteInfo" JUndefined None; PageFetched "key"; Opened;
                    CallResponse (Some 3) (JStr "ok")]).2
    = [(0%nat, mkMessage (Some 1) "siteInfo" (JObj []) None JUndefined false);
       (1%nat, mkMessage (Some 2) CMD_RESPONSE JUndefined (Some 3) (JStr "ok") false)])
    by (vm_compute; reflexivity).
  split; [exact E |].
  apply (wire_carries_the_message "1HeLLo" defaults
    [CallCmd "siteInfo" JUndefined None; PageFetched "key"; Opened;
     CallResponse (Some 3) (JStr "ok")] 0%nat
    (mkMessage (Some 1) "siteInfo" (JObj []) None JUndefined false)).
  rewrite E. apply list_elem_of_here.
Defined.

(** ** The queue only grows *)

Lemma handle_queue e r :
  waitingMessages (this r) `prefix_of` waitingMessages (this (handle e r).1).
Proof.
  destruct (outgoing e) as [m |] eqn:Hout.
  - destruct (handle_outgoing e r m Hout) as (cb & r0 & -> & Ht & Ho).
    destruct (post_fields m cb r0) as (_ & _ & -> & _). rewrite Ht.
    destruct (websocketConnected (this r)); [done |]. by apply prefix_app_r.
  - destruct (opened_or_not e) as [-> | Hne].
    + simpl. unfold _onOpenWebsocket.
      pose proof (flush_this (waitingMessages (this r))
                    (set_this (set_websocketConnected true (this r)) r)) as (Ht & _).
      simpl in *. destruct (flush _ _) as [r2 o2]. simpl in *. by rewrite Ht.
    + by destruct (handle_still e r Hout Hne) as (_ & -> & _).
Qed.

(** X8.  The queue is never emptied, cut or reordered: whatever happens,
    the queue a client had is a prefix of the queue it has later, so the
    entries stay in it, in their order, after they have been sent. *)
Theorem queue_only_grows address options es more :
  let r := (session address options es).1 in
  (waitingMessages (this r) `prefix_of` waitingMessages (this (run more r).1))
  ∧ (∀ i l, waitingMessages (this r) !! i = Some l →
            waitingMessages (this (run more r).1) !! i = Some l).
Proof.
  intros r.
  assert (H : waitingMessages (this r) `prefix_of` waitingMessages (this (run more r).1)).
  { generalize r. clear r. induction more as [| e more IH]; intros r; [done |]. simpl.
    pose proof (handle_queue e r) as H1. specialize (IH (handle e r).1).
    destruct (handle e r) as [r1 o1]. simpl in *.
    destruct (run more r1) as [r2 o2]. simpl in *. by etransitivity. }
  split; [done |]. intros i l Hl. destruct H as [k ->]. by apply lookup_app_l_Some.
Qed.

Lemma queue_only_grows_witness :
  let r := (session "1HeLLo" defaults
              [CallCmd "siteInfo" JUndefined None; CallCmd "serverInfo" JUndefined None]).1 in
  waitingMessages (this r) = [0; 1]%nat
  ∧ waitingMessages (this (run [PageFetched "key"; Opened; Closed;
                                CallCmd "fileGet" JUndefined None; TimerFired; Opened]
                               r).1) !! 1%nat = Some 1%nat.
Proof.
  split; [reflexivity |].
  exact (proj2 (queue_only_grows "1HeLLo" defaults
    [CallCmd "siteInfo" JUndefined None; CallCmd "serverInfo" JUndefined None]
    [PageFetched "key"; Opened; Closed; CallCmd "fileGet" JUndefined None; TimerFired;
     Opened]) 1%nat 1%nat eq_refl).
Defined.

(** ** The callback of [cmd] *)

Lemma handle_uncalled e r k :
  wf r → answers k e = false → k ∉ called (handle e r).2.
Proof.
  intros Hwf Hans. destruct (outgoing e) as [m |] eqn:Hout.
  - destruct (handle_outgoing e r m Hout) as (cb & r0 & -> & _).
    rewrite post_called. apply not_elem_of_nil.
  - destruct e; try discriminate Hout.
    + cbn [handle]. simpl in Hout, Hans.
      destruct (onRequest_cases message r)
        as [(k' & cb & Hc & Hto & _ & _ & ->) | [(_ & _ & ->) | [(Hp & _)
           | [(_ & _ & ->) | (k' & f & Hc & Hto & _ & _ & ->)]]]]; simpl.
      * intros ->%list_elem_of_singleton.
        by rewrite Hc, Hto, bool_decide_eq_true_2 in Hans.
      * apply not_elem_of_nil.
      * by rewrite Hp in Hout.
      * apply not_elem_of_nil.
      * intros ->%list_elem_of_singleton.
        by rewrite Hc, Hto, bool_decide_eq_true_2 in Hans.
    + cbn [handle].
      destruct (open_spec r (wf_queue_nodup r Hwf)) as (store & -> & _). simpl.
      rewrite called_app, called_sends. apply not_elem_of_nil.
    + simpl. apply not_elem_of_nil.
    + pose proof (handle_core Closed r) as (_ & _ & ->). apply not_elem_of_nil.
    + pose proof (handle_core TimerFired r) as (_ & _ & ->). apply not_elem_of_nil.
    + pose proof (handle_core (PageFetched key) r) as (_ & _ & ->).
      apply not_elem_of_nil.
Qed.

Lemma run_uncalled es r k :
  wf r → forallb (λ e, negb (answers k e)) es = true → k ∉ called (run es r).2.
Proof.
  revert r. induction es as [| e es IH]; intros r Hwf Hall; simpl.
  - apply not_elem_of_nil.
  - simpl in Hall. apply andb_prop in Hall as [He%negb_true_iff Hall].
    pose proof (handle_uncalled e r k Hwf He) as Hc1.
    assert (Hwf1 : wf (handle e r).1)
      by (apply (handle_wf e r _ (handle e r).2 Hwf); by destruct (handle e r)).
    specialize (IH (handle e r).1 Hwf1 Hall).
    destruct (handle e r) as [r1 o1]. simpl in *.
    destruct (run es r1) as [r2 o2]. simpl in *.
    rewrite called_app. intros [? | ?]%elem_of_app; auto.
Qed.

(** X9.  The callback given to [cmd] is called with the result of the
    first response to its message, whatever the result is: it is
    registered under the identifier the message gets, waits through
    anything that is not a response for that identifier (closes and
    reconnections included), and is called with the result of the first
    such response (a result with an [error] field like any other), which
    touches no promise.  If the call returns, the callback is then gone
    from the table and never called again; if it throws, line 168 is not
    reached and the client is as it was before the frame, the callback
    still waiting. *)
Theorem cmd_callback_called_with_result
    address options es name args f between frame :
  let r := (session address options es).1 in
  let k := nextMessageId (this r) in
  let r1 := (cmd_ name args (Some (Handler f)) r).1 in
  let r2 := (run between r1).1 in
  let r3 := (_onRequest frame r2).1 in
  forallb (λ e, negb (answers k e)) between = true →
  cmd frame = CMD_RESPONSE → to frame = Some k →
  waitingCallbacks (this r2) !! k = Some (Handler f)
  ∧ (k ∉ called (run between r1).2)
  ∧ (_onRequest frame r2).2 = [Call k (Handler f) (result frame)]
  ∧ promises r3 = promises r2
  ∧ (raises f (result frame) = false →
     waitingCallbacks (this r3) !! k = None
     ∧ ∀ after, k ∉ called (run after r3).2)
  ∧ (raises f (result frame) = true → r3 = r2).
Proof.
  intros r k r1 r2 r3 Hquiet Hcmd Hto.
  destruct (session_wf address options es r (session address options es).2)
    as [Hwf Htr]; [by subst r; destruct (session _ _ _) |].
  assert (Hpost : cmd_ name args (Some (Handler f)) r
                  = post (mkMessage None name (or_empty args) None JUndefined false)
                         (Some (Handler f)) r) by apply cmd_post.
  assert (Hwf1 : wf r1).
  { subst r1. rewrite Hpost. by apply post_wf. }
  assert (Hk1 : waitingCallbacks (this r1) !! k = Some (Handler f)).
  { subst r1. rewrite Hpost.
    destruct (post_fields (mkMessage None name (or_empty args) None JUndefined false)
                (Some (Handler f)) r) as (_ & _ & _ & Ec & _).
    rewrite Ec. by rewrite decide_True. }
  assert (Hwf2 : wf r2).
  { apply (run_wf between r1 r2 (run between r1).2 Hwf1). subst r2.
    by destruct (run _ _). }
  pose proof (run_waiting between r1 k _ Hwf1 Hquiet Hk1) as Hk2. fold r2 in Hk2.
  assert (Hwf3 : wf r3).
  { apply (onRequest_wf frame r2 r3 (_onRequest frame r2).2 Hwf2). subst r3.
    by destruct (_onRequest _ _). }
  split; [done |]. split; [by apply run_uncalled |].
  destruct (raises f (result frame)) eqn:Hth.
  - pose proof (onRequest_thrown frame r2 k f Hcmd Hto Hk2 Hth) as Hm.
    split; [by rewrite Hm |]. split; [subst r3; by rewrite Hm |].
    split; [done |]. intros _. subst r3. by rewrite Hm.
  - pose proof (onRequest_matched frame r2 k _ Hcmd Hto Hk2 Hth) as Hm.
    split; [by rewrite Hm |]. split; [subst r3; by rewrite Hm |].
    split; [| done]. intros _. split.
    + subst r3. rewrite Hm. simpl. apply lookup_delete_eq.
    + intros after. apply run_absent; [done | |].
      * subst r3. rewrite Hm. simpl. apply lookup_delete_eq.
      * subst r3. rewrite Hm. simpl. apply (wf_keys r2 Hwf2) in Hk2. lia.
Qed.

Lemma cmd_callback_called_with_result_witness :
  let failure := mkMessage None CMD_RESPONSE JUndefined (Some 1)
                   (JObj [("error", JStr "Forbidden")]) false in
  let r := (session "1HeLLo" defaults []).1 in
  let r2 := (run [PageFetched "key"; Opened; Closed; TimerFired; Opened]
                 (cmd_ "siteInfo" JUndefined (Some (Handler (returning 0))) r).1).1 in
  (_onRequest failure r2).2
  = [Call 1 (Handler (returning 0)) (JObj [("error", JStr "Forbidden")])]
  ∧ waitingCallbacks (this (_onRequest failure r2).1) !! 1 = None.
Proof.
  pose proof (cmd_callback_called_with_result "1HeLLo" defaults []
    "siteInfo" JUndefined (returning 0)
    [PageFetched "key"; Opened; Closed; TimerFired; Opened]
    (mkMessage None CMD_RESPONSE JUndefined (Some 1)
       (JObj [("error", JStr "Forbidden")]) false)
    eq_refl eq_refl eq_refl) as (_ & _ & Hcall & _ & Hret & _).
  split; [exact Hcall | exact (proj1 (Hret eq_refl))].
Defined.

(** ** Promises and their callbacks *)

Lemma handle_kept e r : wf r → kept r → kept (handle e r).1.
Proof.
  intros Hwf Hkept. unfold kept in *.
  destruct (outgoing e) as [m |] eqn:Hout.
  - destruct (handle_outgoing_callback e r m Hout) as [(cb & -> & Hcb) | ->].
    + destruct (post_fields m cb r) as (_ & _ & _ & Ec & -> & _).
      intros p Hp. destruct (Hkept p Hp) as [k Hk]. exists k. rewrite Ec.
      destruct cb as [c |]; [| done]. case_decide as Hkk; [| done].
      apply (wf_keys r Hwf) in Hk. lia.
    + destruct (post_fields m (Some (Settle (length (promises r))))
                  (set_promises (promises r ++ [Pending]) r))
        as (_ & _ & _ & Ec & -> & _).
      cbn [promises set_promises]. intros p Hp.
      apply lookup_app_Some in Hp as [Hp | [Hge Hp]].
      * destruct (Hkept p Hp) as [k Hk]. exists k. rewrite Ec.
        case_decide as Hkk; [| done].
        apply (wf_keys r Hwf) in Hk. simpl in Hkk. lia.
      * destruct (p - length (promises r))%nat eqn:Hd; [| done].
        exists (nextMessageId (this r)). rewrite Ec. rewrite decide_True by done.
        do 2 f_equal. lia.
  - destruct e; try (destruct (handle_quiet _ r Hwf Hout ltac:(done)) as [-> ->]; done).
    simpl in *.
    destruct (String.eqb_spec (cmd message) CMD_PING) as [Hp | Hp]; [done |].
    destruct (onRequest_cases message r)
      as [(k & cb & Hc & Hto & Hcb & Hth & ->) | [(_ & _ & ->) | [(Hp' & _) | [(_ & _ & ->)
         | (kt & ft & _ & _ & _ & _ & ->)]]]];
      try done.
    simpl. destruct (invoke_fields cb (result message) r) as (Et & _ & _ & Ep).
    rewrite Et. intros p Hpend.
    assert (Hne : cb ≠ Settle p).
    { intros ->. destruct (wf_settle r Hwf k p Hcb) as [Hpp _].
      unfold invoke in Hpend. rewrite Hpp in Hpend.
      pose proof (lookup_lt_Some _ _ _ Hpp) as Hlt.
      destruct (_ && _); simpl in Hpend;
        rewrite list_lookup_insert_eq in Hpend by done; done. }
    rewrite (Ep p Hne) in Hpend. destruct (Hkept p Hpend) as [k' Hk'].
    exists k'. rewrite lookup_delete_ne; [done |]. intros ->. congruence.
Qed.

Lemma run_kept es r : wf r → kept r → kept (run es r).1.
Proof.
  revert r. induction es as [| e es IH]; intros r Hwf Hk; [done |]. simpl.
  pose proof (handle_kept e r Hwf Hk) as Hk1.
  pose proof (handle_wf e r (handle e r).1 (handle e r).2 Hwf) as Hwf1.
  destruct (handle e r) as [r1 o1]. simpl in *.
  specialize (IH r1 (Hwf1 eq_refl) Hk1). by destruct (run es r1).
Qed.

Lemma cmdp_promises name args r :
  promises (cmdp name args r).1.2 = promises r ++ [Pending].
Proof.
  rewrite cmdp_post. cbn [fst snd].
  by destruct (post_fields (mkMessage None name (or_empty args) None JUndefined false)
        (Some (Settle (length (promises r))))
        (set_promises (promises r ++ [Pending]) r)) as (_ & _ & _ & _ & -> & _).
Qed.

Lemma handle_promises e r :
  length (promises (handle e r).1)
  = (length (promises r) + (if is_promise_call e then 1 else 0))%nat.
Proof.
  destruct e; cbn [handle is_promise_call].
  - rewrite cmd_post.
    destruct (post_fields (mkMessage None name (or_empty args) None JUndefined false)
                (Handler <$> cb) r) as (_ & _ & _ & _ & -> & _). lia.
  - pose proof (cmdp_promises name args r) as H.
    destruct (cmdp name args r) as [[p r1] o]. simpl in *. rewrite H, length_app. done.
  - rewrite proxy_as_cmdp.
    pose proof (cmdp_promises name (proxy_params arguments) r) as H.
    destruct (cmdp name _ r) as [[p r1] o]. simpl in *. rewrite H, length_app. done.
  - rewrite response_post.
    destruct (post_fields (mkMessage None CMD_RESPONSE JUndefined target res false)
                None r) as (_ & _ & _ & _ & -> & _). lia.
  - destruct (onRequest_cases message r)
      as [(k & cb & _ & _ & _ & Hth & ->) | [(_ & _ & ->) | [(_ & ->) | [(_ & _ & ->)
         | (kt & ft & _ & _ & _ & _ & ->)]]]];
      simpl; try lia.
    + destruct (invoke_fields cb (result message) r) as (_ & _ & -> & _). lia.
    + rewrite response_post.
      destruct (post_fields (mkMessage None CMD_RESPONSE JUndefined (id message)
                               (JStr CMD_PONG) false)
                  None r) as (_ & _ & _ & _ & -> & _). lia.
  - pose proof (flush_this (waitingMessages (this r))
                  (set_this (set_websocketConnected true (this r)) r)) as (_ & Hp & _).
    unfold _onOpenWebsocket. simpl in *. destruct (flush _ _) as [r2 o2].
    simpl in *. rewrite Hp. lia.
  - simpl. lia.
  - pose proof (handle_core Closed r) as ([= _ _ _ _ H] & _). simpl in H.
    rewrite H. lia.
  - pose proof (handle_core TimerFired r) as ([= _ _ _ _ H] & _). simpl in H.
    rewrite H. lia.
  - pose proof (handle_core (PageFetched key) r) as ([= _ _ _ _ H] & _). simpl in H.
    rewrite H. lia.
Qed.

Lemma run_link es r :
  wf r → forallb is_link es = true →
  promises (run es r).1 = promises r
  ∧ waitingCallbacks (this (run es r).1) = waitingCallbacks (this r).
Proof.
  revert r. induction es as [| e es IH]; intros r Hwf Hall; [done |].
  simpl in Hall. apply andb_prop in Hall as [He Hall].
  assert (Hq : waitingCallbacks (this (handle e r).1) = waitingCallbacks (this r)
               ∧ promises (handle e r).1 = promises r).
  { apply handle_quiet; [done | by destruct e |]. intros message k ->. done. }
  assert (Hwf1 : wf (handle e r).1)
    by (apply (handle_wf e r _ (handle e r).2 Hwf); by destruct (handle e r)).
  specialize (IH (handle e r).1 Hwf1 Hall). simpl.
  destruct (handle e r) as [r1 o1]. simpl in *.
  destruct (run es r1) as [r2 o2]. simpl in *.
  destruct Hq as [Hc Hp], IH as [IHp IHc]. split; congruence.
Qed.

(** X10.  A promise of [cmdp] is pending exactly as long as its callback
    waits.  After any run there is one promise per call of [cmdp] or of
    the proxy; a promise is pending if and only if the table still holds
    the callback that settles it, under one identifier only; so no
    promise is left pending without a way to be settled.  The events of
    the connection (open, error, close, a reconnection, the arrival of the
    page), in any number and order, leave every promise and the whole
    table as they are: they neither settle nor drop a pending promise. *)
Theorem pending_promise_has_its_callback address options es :
  let r := (session address options es).1 in
  length (promises r) = length (List.filter is_promise_call es)
  ∧ (∀ p, promises r !! p = Some Pending
          ↔ ∃ k, waitingCallbacks (this r) !! k = Some (Settle p)
                 ∧ ∀ k', waitingCallbacks (this r) !! k' = Some (Settle p) → k' = k)
  ∧ (∀ more, forallb is_link more = true →
             promises (run more r).1 = promises r
             ∧ waitingCallbacks (this (run more r).1) = waitingCallbacks (this r)).
Proof.
  intros r.
  destruct (session_wf address options es r (session address options es).2)
    as [Hwf _]; [by subst r; destruct (session _ _ _) |].
  assert (Hrun : r = (run es (new address options).1).1).
  { subst r. unfold session. destruct (new address options) as [r0 o0]. simpl.
    by destruct (run es r0). }
  split.
  - assert (H : ∀ r0, length (promises (run es r0).1)
                      = (length (promises r0)
                         + length (List.filter is_promise_call es))%nat).
    { clear. induction es as [| e es IH]; intros r0; simpl; [lia |].
      pose proof (handle_promises e r0) as H1. specialize (IH (handle e r0).1).
      destruct (handle e r0) as [r1 o1]. simpl in *.
      destruct (run es r1) as [r2 o2]. simpl in *. rewrite IH, H1.
      destruct (is_promise_call e); simpl; lia. }
    rewrite Hrun, H. done.
  - split; [| intros more; by apply run_link].
    assert (Hkept : kept r).
    { rewrite Hrun. apply run_kept; [apply wf_new |]. by intros p Hp. }
    intros p. split.
    + intros Hp. destruct (Hkept p Hp) as [k Hk]. exists k. split; [done |].
      by destruct (wf_settle r Hwf k p Hk).
    + intros (k & Hk & _). by destruct (wf_settle r Hwf k p Hk).
Qed.

Lemma pending_promise_has_its_callback_witness :
  let answer := mkMessage None CMD_RESPONSE JUndefined (Some 1) (JStr "ok") false in
  let r := (session "1HeLLo" defaults
              [CallCmdp "siteInfo" JUndefined; CallProxy "serverInfo" [];
               PageFetched "key"; Opened; Incoming answer; Closed]).1 in
  promises r = [Fulfilled (JStr "ok"); Pending]
  ∧ (∃ k, waitingCallbacks (this r) !! k = Some (Settle 1)
          ∧ ∀ k', waitingCallbacks (this r) !! k' = Some (Settle 1) → k' = k)
  ∧ promises (run [Failed; Closed; TimerFired; Opened; Closed] r).1
    = [Fulfilled (JStr "ok"); Pending].
Proof.
  split; [reflexivity |].
  pose proof (pending_promise_has_its_callback "1HeLLo" defaults
    [CallCmdp "siteInfo" JUndefined; CallProxy "serverInfo" [];
     PageFetched "key"; Opened;
     Incoming (mkMessage None CMD_RESPONSE JUndefined (Some 1) (JStr "ok") false);
     Closed]) as (_ & Hp & Hl).
  split; [exact (proj1 (Hp 1%nat) eq_refl) |].
  exact (proj1 (Hl [Failed; Closed; TimerFired; Opened; Closed] eq_refl)).
Defined.

(** ** The proxy with one argument that is no object *)

(** X11.  One argument that is not an object goes out as an array.  When
    the function of the proxy is called with a single argument that is
    [null], [undefined], a boolean, a number or a string, the command is
    sent with the one-element array of that argument as parameters, not
    with the argument itself and not with the default [{}]. *)
Theorem proxy_wraps_single_primitive name a r :
  is_object a = false →
  proxy name [a] r = issue name (JArr [a]) r
  ∧ params <$> last (objects (proxy name [a] r).1.2) = Some (JArr [a]).
Proof.
  intros Ha.
  assert (E : proxy name [a] r = issue name (JArr [a]) r).
  { rewrite proxy_as_cmdp, cmdp_issue. unfold proxy_params. simpl. by rewrite Ha. }
  split; [done |]. rewrite E. unfold issue, post. simpl. by rewrite last_snoc.
Qed.

Lemma proxy_wraps_single_primitive_witness :
  let r := (session "1HeLLo" defaults []).1 in
  params <$> last (objects (proxy "fileGet" [JStr "content.json"] r).1.2)
  = Some (JArr [JStr "content.json"])
  ∧ params <$> last (objects (proxy "fileGet" [JNull] r).1.2) = Some (JArr [JNull]).
Proof.
  split.
  - exact (proj2 (proxy_wraps_single_primitive "fileGet" (JStr "content.json")
                    (session "1HeLLo" defaults []).1 eq_refl)).
  - exact (proj2 (proxy_wraps_single_primitive "fileGet" JNull
                    (session "1HeLLo" defaults []).1 eq_refl)).
Defined.

(** ** Sending while the socket is open *)

Lemma run_calls_open calls r :
  wf r → websocketConnected (this r) = true → forallb is_call calls = true →
  ∃ new,
    objects (run calls r).1 = objects r ++ new
    ∧ (run calls r).2
      = imap (λ n m, Send (websocket (this r)) (length (objects r) + n) m) new
    ∧ waitingMessages (this (run calls r).1) = waitingMessages (this r)
    ∧ websocketConnected (this (run calls r).1) = true
    ∧ length new = length calls
    ∧ ∀ n e, calls !! n = Some e →
             ∃ m, outgoing e = Some m
                  ∧ new !! n = Some (set_id (Some (nextMessageId (this r) + Z.of_nat n)) m).
Proof.
  revert r. induction calls as [| e calls IH]; intros r Hwf Hc Hall.
  - exists []. simpl. by rewrite !app_nil_r.
  - simpl in Hall. apply andb_prop in Hall as [He Hall].
    destruct (outgoing_call e He) as [m Hm].
    destruct (handle_outgoing e r m Hm) as (cb & r0 & Hh & Ht & Ho).
    destruct (post_fields m cb r0) as (En & Eo & Eq & _ & _ & Ec).
    assert (Hout : (post m cb r0).2
                   = [Send (websocket (this r)) (length (objects r))
                           (set_id (Some (nextMessageId (this r))) m)]).
    { unfold post. simpl. by rewrite Ht, Ho, Hc. }
    assert (Hws : websocket (this (post m cb r0).1) = websocket (this r)).
    { unfold post. cbn [fst this set_this].
      destruct (register_fields cb (nextMessageId (this r0))
        (if websocketConnected (this r0)
         then set_nextMessageId (nextMessageId (this r0) + 1) (this r0)
         else set_waitingMessages (waitingMessages (this r0) ++ [length (objects r0)])
                (set_nextMessageId (nextMessageId (this r0) + 1) (this r0))))
        as (_ & _ & _ & _ & _ & ->).
      rewrite Ht. by destruct (websocketConnected (this r)). }
    simpl. pose proof (handle_wf e r (handle e r).1 (handle e r).2 Hwf) as Hwf1.
    rewrite Hh in *. destruct (post m cb r0) as [r1 o1]. simpl in *. subst o1.
    rewrite Ht, Ho, ?Hc in *.
    destruct (IH r1 (Hwf1 eq_refl) Ec Hall) as (new & Hs' & Ho' & Hq' & Hc' & Hl' & Hn').
    destruct (run calls r1) as [r2 o2]. simpl in *. subst o2.
    exists (set_id (Some (nextMessageId (this r))) m :: new).
    repeat split; try done.
    + by rewrite Hs', Eo, <- app_assoc.
    + simpl. rewrite Nat.add_0_r, Hws. f_equal.
      apply imap_ext. intros n x _. simpl. rewrite Eo, length_app. simpl.
      f_equal. lia.
    + by rewrite Hq', Eq.
    + simpl. by rewrite Hl'.
    + intros [| n] e' He'; simpl in *.
      * injection He' as <-. exists m. by rewrite Z.add_0_r.
      * destruct (Hn' n e' He') as (m' & Hm' & Hnew). exists m'. split; [done |].
        rewrite Hnew, En. do 3 f_equal. lia.
Qed.

(** X12.  On an open socket every message goes out at once, in the order
    of the calls, and the queue is not touched.  After any run that leaves
    the socket open, a sequence of calls of the command surface hands to
    the current socket exactly the messages of the calls, in their order,
    with consecutive identifiers, and nothing else; the queue stays as it
    was. *)
Theorem sent_at_once_when_open address options es calls :
  let r := (session address options es).1 in
  websocketConnected (this r) = true →
  forallb is_call calls = true →
  ∃ new,
    (run calls r).2
    = imap (λ n m, Send (websocket (this r)) (length (objects r) + n) m) new
    ∧ length new = length calls
    ∧ (∀ n e, calls !! n = Some e →
              ∃ m, outgoing e = Some m
                   ∧ new !! n
                     = Some (set_id (Some (nextMessageId (this r) + Z.of_nat n)) m))
    ∧ waitingMessages (this (run calls r).1) = waitingMessages (this r)
    ∧ pending (run calls r).1 = pending r.
Proof.
  intros r Hc Hall.
  destruct (session_wf address options es r (session address options es).2)
    as [Hwf _]; [by subst r; destruct (session _ _ _) |].
  destruct (run_calls_open calls r Hwf Hc Hall) as (new & Ho & Hout & Hq & _ & Hl & Hn).
  exists new. repeat split; try done.
  unfold pending. rewrite Hq. apply List.filter_ext_in.
  intros l Hl'%list_elem_of_In. apply (unprocessed_app_l r _ l new Ho).
  by apply (wf_queue_bound r Hwf).
Qed.

Lemma sent_at_once_when_open_witness :
  (run [CallCmd "siteInfo" JUndefined None; CallResponse (Some 3) (JStr "ok")]
       (session "1HeLLo" defaults [PageFetched "key"; Opened]).1).2
  = [Send (Some 0%nat) 0 (mkMessage (Some 1) "siteInfo" (JObj []) None JUndefined false);
     Send (Some 0%nat) 1
          (mkMessage (Some 2) CMD_RESPONSE JUndefined (Some 3) (JStr "ok") false)]
  ∧ ∃ new, (run [CallCmd "siteInfo" JUndefined None; CallResponse (Some 3) (JStr "ok")]
                (session "1HeLLo" defaults [PageFetched "key"; Opened]).1).2
           = imap (λ n m, Send (Some 0%nat) (0 + n) m) new.
Proof.
  split; [reflexivity |].
  destruct (sent_at_once_when_open "1HeLLo" defaults [PageFetched "key"; Opened]
    [CallCmd "siteInfo" JUndefined None; CallResponse (Some 3) (JStr "ok")]
    eq_refl eq_refl) as (new & Hout & _).
  exists new. exact Hout.
Defined.

(** ** The console *)

Lemma handle_printed e r z :
  (handle e r).2 ≫= printed z
  = match e with
    | Opened => onOpenWebsocket z
    | Closed => onCloseWebsocket z
    | Failed => onErrorWebsocket z
    | Incoming message =>
      if is_logged e then onRequest z (cmd message) message else []
    | _ => []
    end.
Proof.
  assert (Hpost : ∀ m cb r0, (post m cb r0).2 ≫= printed z = []).
  { intros m cb r0. unfold post. simpl. by destruct (websocketConnected (this r0)). }
  destruct e; cbn [handle].
  - by rewrite cmd_post.
  - rewrite cmdp_post. apply Hpost.
  - rewrite proxy_as_cmdp, cmdp_post. apply Hpost.
  - by rewrite response_post.
  - unfold is_logged.
    destruct (onRequest_cases message r)
      as [(k & cb & Hc & _ & _ & Hth & ->) | [(Hc & _ & ->) | [(Hp & ->)
         | [(Hc & Hp & ->) | (kt & ft & Hc & _ & _ & _ & ->)]]]].
    + by rewrite Hc.
    + by rewrite Hc.
    + rewrite response_post, Hp, Hpost. by destruct (String.eqb _ _).
    + apply String.eqb_neq in Hc, Hp. rewrite Hc, Hp. simpl.
      by rewrite app_nil_r.
    + by rewrite Hc.
  - unfold _onOpenWebsocket.
    pose proof (flush_quiet (waitingMessages (this r))
                  (set_this (set_websocketConnected true (this r)) r))
      as (_ & _ & _ & Hq).
    simpl in *. destruct (flush _ _) as [r2 o2]. simpl in *.
    rewrite bind_app, Hq. simpl. by rewrite app_nil_r.
  - simpl. by rewrite app_nil_r.
  - unfold _onCloseWebsocket. simpl.
    destruct (attempts (reconnect (this r)) =? 0); simpl; [by rewrite app_nil_r |].
    destruct (_ && _); simpl; by rewrite app_nil_r.
  - unfold reconnect_timer. by destruct (timers r).
  - unfold _connect_resume. by destruct (fetching r).
Qed.

(** X13.  Nothing is printed unless it is switched on.  For a client
    whose hooks are the ones of the class: with [show.log] off no run
    writes a log line, with [show.error] off no run writes an error line,
    so with the default options the console stays empty; with [show.log]
    on there is one log line for each open, each close and each frame
    that is neither a response nor a ping, and with [show.error] on one
    error line for each error of the socket. *)
Theorem console_follows_show address options es :
  let lines := console es (new address options).1 in
  length (List.filter is_log lines)
  = (if log (options_show options) then length (List.filter is_logged es) else 0)%nat
  ∧ length (List.filter (λ p, negb (is_log p)) lines)
    = (if error (options_show options) then length (List.filter is_failure es)
       else 0)%nat
  ∧ (log (options_show options) = false → error (options_show options) = false →
     lines = []).
Proof.
  intros lines. subst lines.
  assert (Hshow : show (this (new address options).1) = options_show options) by done.
  revert Hshow. generalize (new address options).1 as r.
  induction es as [| e es IH]; intros r Hshow.
  - simpl. by destruct (log _), (error _).
  - simpl. destruct (handle_settings e r) as (Hs & _).
    assert (Hshow1 : show (this (handle e r).1) = options_show options).
    { injection Hs as _ _ -> _. done. }
    pose proof (handle_printed e r (this (handle e r).1)) as Hp.
    specialize (IH (handle e r).1 Hshow1).
    destruct (handle e r) as [r1 o1]. simpl in *.
    destruct IH as (IHl & IHe & IHn).
    rewrite !List.filter_app, !length_app, IHl, IHe, Hp.
    unfold onOpenWebsocket, onCloseWebsocket, onErrorWebsocket, onRequest,
      log_, error_. rewrite Hshow1.
    split; [| split].
    + destruct e; simpl; try done; repeat case_match; simpl; done.
    + destruct e; simpl; try done; repeat case_match; simpl; done.
    + intros Hl He. rewrite (IHn Hl He), Hl, He.
      destruct e; simpl; try done. by destruct (negb _ && negb _).
Qed.

Lemma console_follows_show_witness :
  console [PageFetched "key"; Opened; Failed; Closed; TimerFired]
          (new "1HeLLo" defaults).1 = [].
Proof.
  exact (proj2 (proj2 (console_follows_show "1HeLLo" defaults
    [PageFetched "key"; Opened; Failed; Closed; TimerFired])) eq_refl eq_refl).
Defined.

(** ** Options given in part *)

(** X14.  Options given in part replace the ones given and leave the
    others, and they add up from one client to the next.  With the
    options object of the class holding [o], constructing a client with
    an object literal that gives some of the options makes the object
    hold [o] with those replaced, and leaves the options not given, also
    those of the same group, as they were.  The client is set up with
    exactly that: each of its fields is the value given, or else the one
    the object held, and its wrapper page is fetched from the resulting
    host and port.  The object of the class starts with the documented
    defaults. *)
Theorem partial_options_override address v o :
  address ≠ "" →
  store_of defaults = loaded
  ∧ read_options (store_of o) constructorOptions = Some o
  ∧ ∃ r out,
      constructor (JStr address) (partial v) (store_of o)
      = (store_of (override v o), Constructed r out)
      ∧ new address (override v o) = (r, out)
      ∧ configured address (override v o) r out
      ∧ masterAddress (this r)
        = default (multiuser_masterAddress (multiuser o)) (Some <$> over_masterAddress v)
      ∧ masterSeed (this r)
        = default (multiuser_masterSeed (multiuser o)) (Some <$> over_masterSeed v)
      ∧ host (this r) = default (instance_host (instance o)) (over_host v)
      ∧ port (this r) = default (instance_port (instance o)) (over_port v)
      ∧ secure (this r) = default (instance_secure (instance o)) (over_secure v)
      ∧ log (show (this r)) = default (log (options_show o)) (over_log v)
      ∧ error (show (this r)) = default (error (options_show o)) (over_error v)
      ∧ attempts (reconnect (this r))
        = default (attempts (options_reconnect o)) (over_attempts v)
      ∧ delay (reconnect (this r))
        = default (delay (options_reconnect o)) (over_delay v).
Proof.
  intros Hne. split; [done |]. split; [apply read_store_of |].
  exists (new address (override v o)).1, (new address (override v o)).2.
  split; [by apply constructor_partial |].
  split; [by destruct (new address (override v o)) |].
  split; [apply new_configured |]. done.
Qed.

Lemma partial_options_override_witness :
  let v := mkOverrides None None None (Some 8080) None None None (Some 3) None in
  partial v = [("instance", JObj [("port", JNum 8080)]);
               ("reconnect", JObj [("attempts", JNum 3)])]
  ∧ ∃ r out,
      constructor (JStr "1HeLLo") (partial v) loaded
      = (store_of (mkOptions (mkMultiuser None None) (mkInstance "127.0.0.1" 8080 false)
                     (mkShow false false) (mkReconnect 3 5000)),
         Constructed r out)
      ∧ host (this r) = "127.0.0.1" ∧ port (this r) = 8080
      ∧ reconnect (this r) = mkReconnect 3 5000
      ∧ out = [Fetch "http://127.0.0.1:8080/1HeLLo"].
Proof.
  split; [reflexivity |].
  destruct (partial_options_override "1HeLLo"
    (mkOverrides None None None (Some 8080) None None None (Some 3) None) defaults
    ltac:(discriminate))
    as (_ & _ & r & out & Hc & _ & Hconf & _ & _ & Hh & Hp & _).
  destruct Hconf as (_ & _ & _ & Hrec & _ & _ & _ & _ & Hout).
  exists r, out. split; [exact Hc |]. split; [exact Hh |]. split; [exact Hp |].
  split; [exact Hrec | exact Hout].
Defined.

(** X15.  Constructed without options a client has the documented
    defaults.  For a site address that is not empty, and the options
    object of the class as the module defines it, the constructor leaves
    that object as it is and returns a client for host 127.0.0.1, port
    43110, no encryption, no master address, logging off and unlimited
    reconnecting every 5000 ms; the client is not connected, has nothing
    queued and no callback waiting, counts identifiers from 1, and the one
    thing it has done is to fetch [http://127.0.0.1:43110/] with the
    site appended. *)
Theorem constructed_with_defaults address :
  address ≠ "" →
  ∃ r, constructor (JStr address) [] loaded
       = (loaded, Constructed r [Fetch ("http://127.0.0.1:43110/" +:+ address)])
       ∧ (host (this r), port (this r), secure (this r), masterAddress (this r))
         = ("127.0.0.1", 43110, false, None)
       ∧ show (this r) = mkShow false false
       ∧ reconnect (this r) = mkReconnect (-1) 5000
       ∧ site (this r) = address
       ∧ websocketConnected (this r) = false
       ∧ waitingMessages (this r) = []
       ∧ waitingCallbacks (this r) = ∅
       ∧ nextMessageId (this r) = 1
       ∧ (wrapperKey (this r), websocket (this r)) = (None, None).
Proof.
  intros Hne. exists (new address defaults).1.
  split; [| done].
  unfold constructor, recursiveAssign. cbn [truthy mutate].
  destruct (String.eqb_spec address "") as [-> | _]; [done |].
  cbn [negb]. rewrite read_loaded. done.
Qed.

Lemma constructed_with_defaults_witness :
  ∃ r, constructor (JStr "1HeLLo") [] loaded
       = (loaded, Constructed r [Fetch "http://127.0.0.1:43110/1HeLLo"])
       ∧ reconnect (this r) = mkReconnect (-1) 5000.
Proof.
  destruct (constructed_with_defaults "1HeLLo" ltac:(discriminate))
    as (r & Hc & _ & _ & Hr & _).
  exists r. split; [exact Hc | exact Hr].
Defined.

(** ** A client among others *)






